(** * tennisViz: a shallow embedding of [transformer.py]

    The script reads a zip archive of tennis tracking documents
    ([data/<seq>.json]), orders them by the integer tuple in their names,
    turns every shot record into one flat row and writes all rows to
    [result.csv].

    Modelling choices:
    - a Python [str] is a list of Unicode code points ([ustr]);
    - JSON scalars that are only copied to the output are [jv] values;
      a float among them is kept as its Python [repr] text;
    - sample times and shot durations, which the code adds and compares,
      are JSON numbers: a Python [int] or an IEEE 754 double ([num]);
    - team identifiers and dictionary keys are strings;
    - the documents are typed records: the keys the code reads are there,
      except the top-level ["match"] key, which only the first document
      has to carry;
    - every uncaught Python exception is an [Err] of the exception class;
      the run stops there. *)

From Stdlib Require Import List Bool ZArith QArith String Ascii SpecFloat.
From Stdlib Require Import Permutation Sorted Lia.
Import ListNotations.
Open Scope Z_scope.

(** ** Python values and errors *)

Definition ustr := list Z.

(** An ASCII literal as a Python string. *)
Fixpoint u (s : string) : ustr :=
  match s with
  | EmptyString => []
  | String c s' => Z.of_nat (nat_of_ascii c) :: u s'
  end.

Definition ustr_eqb (a b : ustr) : bool :=
  if list_eq_dec Z.eq_dec a b then true else false.

Inductive py_error :=
| KeyError | IndexError | ValueError | OverflowError
| JSONDecodeError | UnicodeEncodeError.

Inductive result (A : Type) :=
| Ok (a : A)
| Err (e : py_error).
Arguments Ok {A} a.
Arguments Err {A} e.

Definition res_bind {A B} (m : result A) (f : A -> result B) : result B :=
  match m with
  | Ok a => f a
  | Err e => Err e
  end.

Notation "x <- m ;; f" := (res_bind m (fun x => f))
  (at level 61, m at next level, right associativity).

Fixpoint mapM {A B} (f : A -> result B) (l : list A) : result (list B) :=
  match l with
  | [] => Ok []
  | x :: t => y <- f x ;; ys <- mapM f t ;; Ok (y :: ys)
  end.

(** ** [pattern = r"data/(.+?)\.json"] and [re.search]

    [.] matches any character but a newline; [.+?] is lazy, so the group
    ends at the first [".json"] after at least one character. *)

Fixpoint is_prefix (p s : ustr) : bool :=
  match p, s with
  | [], _ => true
  | c :: p', d :: s' => (c =? d) && is_prefix p' s'
  | _ :: _, [] => false
  end.

Definition newline : Z := 10.

Fixpoint lazy_group (acc t : ustr) {struct t} : option ustr :=
  if is_prefix (u ".json") t then Some acc
  else match t with
       | [] => None
       | c :: t' => if c =? newline then None else lazy_group (acc ++ [c]) t'
       end.

(** The pattern tried at the start of [s]; the group when it matches. *)
Definition match_at (s : ustr) : option ustr :=
  if is_prefix (u "data/") s then
    match skipn 5 s with
    | [] => None
    | c :: t => if c =? newline then None else lazy_group [c] t
    end
  else None.

(** [re.search(pattern, s).group(1)]: leftmost match anywhere in [s]. *)
Fixpoint re_search (s : ustr) : option ustr :=
  match match_at s with
  | Some g => Some g
  | None => match s with
            | [] => None
            | _ :: s' => re_search s'
            end
  end.

(** ** [int(x)] and [str.split("_")] *)

(** A Unicode decimal digit (category Nd): the digits come in blocks of
    ten consecutive code points, zero to nine; [nd_zeros] lists the zero of
    every block (Unicode 14.0, the database of Python 3.11). *)
Definition nd_zeros : list Z :=
  [48; 1632; 1776; 1984; 2406; 2534; 2662; 2790; 2918; 3046; 3174; 3302;
   3430; 3558; 3664; 3792; 3872; 4160; 4240; 6112; 6160; 6470; 6608; 6784;
   6800; 6992; 7088; 7232; 7248; 42528; 43216; 43264; 43472; 43504; 43600;
   44016; 65296; 66720; 68912; 69734; 69872; 69942; 70096; 70384; 70736;
   70864; 71248; 71360; 71472; 71904; 72016; 72784; 73040; 73120; 92768;
   92864; 93008; 120782; 120792; 120802; 120812; 120822; 123200; 123632;
   125264; 130032].

(** [Py_UNICODE_TODECIMAL] *)
Definition decimal (c : Z) : option Z :=
  match find (fun z0 => (z0 <=? c) && (c <=? z0 + 9)) nd_zeros with
  | Some z0 => Some (c - z0)
  | None => None
  end.

(** [Py_UNICODE_ISSPACE] above ASCII. *)
Definition unicode_space (c : Z) : bool :=
  existsb (Z.eqb c)
    [133; 160; 5760; 8192; 8193; 8194; 8195; 8196; 8197; 8198; 8199; 8200;
     8201; 8202; 8232; 8233; 8239; 8287; 12288].

(** [_PyUnicode_TransformDecimalAndSpaceToASCII]: a character below 127 is
    kept, a white-space character becomes a space, a decimal digit its
    ASCII digit; any other character makes the text invalid. *)
Definition to_ascii (c : Z) : option Z :=
  if c <? 127 then Some c
  else if unicode_space c then Some 32
  else match decimal c with
       | Some d => Some (48 + d)
       | None => None
       end.

Fixpoint to_ascii_str (s : ustr) : option ustr :=
  match s with
  | [] => Some []
  | c :: t => match to_ascii c, to_ascii_str t with
              | Some a, Some r => Some (a :: r)
              | _, _ => None
              end
  end.

(** [Py_ISSPACE]: ASCII white space. *)
Definition is_space (c : Z) : bool :=
  (c =? 32) || ((9 <=? c) && (c <=? 13)).

Fixpoint strip_left (s : ustr) : ustr :=
  match s with
  | c :: t => if is_space c then strip_left t else s
  | [] => []
  end.

Definition strip (s : ustr) : ustr := rev (strip_left (rev (strip_left s))).

Definition digit_val (c : Z) : option Z :=
  if (48 <=? c) && (c <=? 57) then Some (c - 48) else None.

Fixpoint digits_from (acc : Z) (s : ustr) : option Z :=
  match s with
  | [] => Some acc
  | c :: t => match digit_val c with
              | Some d => digits_from (acc * 10 + d) t
              | None => None
              end
  end.

Fixpoint split_on (sep : Z) (s : ustr) : list ustr :=
  match s with
  | [] => [[]]
  | c :: t =>
      let parts := split_on sep t in
      if c =? sep then [] :: parts
      else match parts with
           | p :: ps => (c :: p) :: ps
           | [] => [[c]]
           end
  end.

Definition underscore : Z := 95.

(** [sys.get_int_max_str_digits()] when it is left at its default. *)
Definition max_str_digits : Z := 4300.

(** The digits of a base-10 literal: one underscore at most between two
    digits, none in front or at the end; the underscores do not count
    towards [max_str_digits]. *)
Definition digits (s : ustr) : result Z :=
  let groups := split_on underscore s in
  if existsb (fun g => match g with [] => true | _ => false end) groups
  then Err ValueError else
  let ds := List.concat groups in
  match digits_from 0 ds with
  | None => Err ValueError
  | Some z => if Z.of_nat (List.length ds) <=? max_str_digits then Ok z
              else Err ValueError
  end.

(** [PyLong_FromUnicodeObject] in base 10: [PyLong_FromString] on the
    transformed text; white space around, an optional sign, the digits. *)
Definition py_int (s : ustr) : result Z :=
  match to_ascii_str s with
  | None => Err ValueError
  | Some a =>
      match strip a with
      | [] => Err ValueError
      | c :: r =>
          if c =? 45 then (z <- digits r ;; Ok (- z))
          else if c =? 43 then digits r
          else digits (c :: r)
      end
  end.


(** ** [sort_files] *)

(** Python list comparison on [list[int]]: lexicographic, a proper prefix
    is smaller. *)
Fixpoint lex_lt (a b : list Z) : bool :=
  match a, b with
  | _, [] => false
  | [], _ :: _ => true
  | x :: a', y :: b' =>
      if x <? y then true else if y <? x then false else lex_lt a' b'
  end.

(** [list.sort]: a stable sort; an element goes before the first element
    that is not smaller than it. *)
Fixpoint insert_by {A} (lt : A -> A -> bool) (x : A) (l : list A) : list A :=
  match l with
  | [] => [x]
  | y :: t => if lt y x then y :: insert_by lt x t else x :: y :: t
  end.

Fixpoint sort_by {A} (lt : A -> A -> bool) (l : list A) : list A :=
  match l with
  | [] => []
  | x :: t => insert_by lt x (sort_by lt t)
  end.

(** The loop of [sort_files]: [(sequence, match.group(1))] for every name
    the pattern finds, in archive order. *)
Fixpoint collect (file_list : list ustr) : result (list (list Z * ustr)) :=
  match file_list with
  | [] => Ok []
  | file_name :: rest =>
      match re_search file_name with
      | None => collect rest
      | Some g =>
          sequence <- mapM py_int (split_on underscore g) ;;
          tl <- collect rest ;;
          Ok ((sequence, g) :: tl)
      end
  end.

Definition key_lt (p q : list Z * ustr) : bool := lex_lt (fst p) (fst q).

Definition sort_files (file_list : list ustr) : result (list ustr) :=
  sorted_list <- collect file_list ;;
  Ok (map snd (sort_by key_lt sorted_list)).

(** ** [datetime.strptime(timestamp, "%Y-%m-%dT%H:%M:%S.%fZ")]

    [_strptime] matches the format as a regular expression compiled with
    [IGNORECASE]: [%Y] is [\d\d\d\d], [%m] is [1[0-2]|0[1-9]|[1-9]], [%d] is
    [3[0-1]|[1-2]\d|0[1-9]|[1-9]| [1-9]], [%H] is [2[0-3]|[0-1]\d|\d], [%M]
    is [[0-5]\d|\d], [%S] is [6[0-1]|[0-5]\d|\d] and [%f] is [[0-9]{1,6}];
    in a [str] pattern [\d] is any Unicode decimal digit, the classes in
    brackets are ASCII.  Each directive is followed by a literal that is not
    a digit, so a directive matches exactly when it matches the whole run of
    decimal digits in front of it (or, for [%d], a space and one digit).
    The numbers are [int] of the matched text.  The [datetime] constructor
    then rejects years below 1, days past the end of the month and seconds
    60 and 61 with a [ValueError]. *)

Record datetime := mk_datetime {
  year : Z; month : Z; day : Z;
  hour : Z; minute : Z; second : Z; microsecond : Z }.

Definition is_decimal (c : Z) : bool :=
  match decimal c with Some _ => true | None => false end.

Fixpoint digit_run (s : ustr) : ustr * ustr :=
  match s with
  | c :: t => if is_decimal c then let (r, rest) := digit_run t in (c :: r, rest)
              else ([], s)
  | [] => ([], [])
  end.

Fixpoint decimal_from (acc : Z) (s : ustr) : option Z :=
  match s with
  | [] => Some acc
  | c :: t => match decimal c with
              | Some d => decimal_from (acc * 10 + d) t
              | None => None
              end
  end.

(** [int] of a run of decimal digits. *)
Definition run_value (r : ustr) : Z :=
  match decimal_from 0 r with Some z => z | None => 0 end.

(** An ASCII character class [[lo-hi]]. *)
Definition rng (lo hi c : Z) : bool := (lo <=? c) && (c <=? hi).

(** The directives, on a run of decimal digits; a [\d] position holds. *)
Definition Y_ok (r : ustr) : bool := Nat.eqb (List.length r) 4.

Definition m_ok (r : ustr) : bool :=
  match r with
  | [a; b] => (a =? 49) && rng 48 50 b || (a =? 48) && rng 49 57 b
  | [a] => rng 49 57 a
  | _ => false
  end.

Definition d_ok (r : ustr) : bool :=
  match r with
  | [a; b] => (a =? 51) && rng 48 49 b || rng 49 50 a || (a =? 48) && rng 49 57 b
  | [a] => rng 49 57 a
  | _ => false
  end.

Definition H_ok (r : ustr) : bool :=
  match r with
  | [a; b] => (a =? 50) && rng 48 51 b || rng 48 49 a
  | [_] => true
  | _ => false
  end.

Definition M_ok (r : ustr) : bool :=
  match r with
  | [a; _] => rng 48 53 a
  | [_] => true
  | _ => false
  end.

Definition S_ok (r : ustr) : bool :=
  match r with
  | [a; b] => (a =? 54) && rng 48 49 b || rng 48 53 a
  | [_] => true
  | _ => false
  end.

Definition f_ok (r : ustr) : bool :=
  (1 <=? Z.of_nat (List.length r)) && (Z.of_nat (List.length r) <=? 6) &&
  forallb (rng 48 57) r.

(** A literal of the format; letters match either case. *)
Definition lit_eqb (lit c : Z) : bool :=
  (c =? lit) || ((65 <=? lit) && (lit <=? 90) && (c =? lit + 32)).

Definition expect (lit : Z) (s : ustr) : option ustr :=
  match s with
  | c :: t => if lit_eqb lit c then Some t else None
  | [] => None
  end.

Definition field (ok : ustr -> bool) (s : ustr) : option (Z * ustr) :=
  let (r, rest) := digit_run s in
  if ok r then Some (run_value r, rest) else None.

(** [%d] has the extra alternative [" [1-9]"]. *)
Definition day_field (s : ustr) : option (Z * ustr) :=
  match s with
  | 32 :: c :: t => if rng 49 57 c then Some (c - 48, t) else None
  | _ => field d_ok s
  end.

Definition opt_bind {A B} (m : option A) (f : A -> option B) : option B :=
  match m with Some a => f a | None => None end.

Notation "x <-? m ;; f" := (opt_bind m (fun x => f))
  (at level 61, m at next level, right associativity).

(** [int(s + "0" * (6 - len(s)))] *)
Definition frac_value (r : ustr) : Z :=
  run_value r * 10 ^ (6 - Z.of_nat (List.length r)).

(** The regular-expression stage of [_strptime]: the seven numbers. *)
Definition strptime_fields (s : ustr) : option datetime :=
  y <-? field Y_ok s ;;
  s2 <-? expect 45 (snd y) ;;
  m <-? field m_ok s2 ;;
  s3 <-? expect 45 (snd m) ;;
  d <-? day_field s3 ;;
  s4 <-? expect 84 (snd d) ;;
  h <-? field H_ok s4 ;;
  s5 <-? expect 58 (snd h) ;;
  mi <-? field M_ok s5 ;;
  s6 <-? expect 58 (snd mi) ;;
  se <-? field S_ok s6 ;;
  s7 <-? expect 46 (snd se) ;;
  let (fs, s8) := digit_run s7 in
  if negb (f_ok fs) then None else
  s9 <-? expect 90 s8 ;;
  match s9 with
  | [] => Some (mk_datetime (fst y) (fst m) (fst d) (fst h) (fst mi)
                            (fst se) (frac_value fs))
  | _ => None
  end.

Definition is_leap (y : Z) : bool :=
  (Z.modulo y 4 =? 0) && (negb (Z.modulo y 100 =? 0) || (Z.modulo y 400 =? 0)).

Definition days_in_month (y m : Z) : Z :=
  if m =? 2 then (if is_leap y then 29 else 28)
  else if (m =? 4) || (m =? 6) || (m =? 9) || (m =? 11) then 30 else 31.

(** The checks of the [datetime] constructor. *)
Definition datetime_valid (t : datetime) : bool :=
  (1 <=? year t) && (year t <=? 9999) &&
  (1 <=? month t) && (month t <=? 12) &&
  (1 <=? day t) && (day t <=? days_in_month (year t) (month t)) &&
  (0 <=? hour t) && (hour t <=? 23) &&
  (0 <=? minute t) && (minute t <=? 59) &&
  (0 <=? second t) && (second t <=? 59) &&
  (0 <=? microsecond t) && (microsecond t <=? 999999).

Definition strptime (s : ustr) : result datetime :=
  match strptime_fields s with
  | Some t => if datetime_valid t then Ok t else Err ValueError
  | None => Err ValueError
  end.

(** ** JSON numbers

    [json.loads] gives an [int] for an integer literal and a [float], an
    IEEE 754 binary64 value, for any other number (["NaN"], ["Infinity"]
    and ["-Infinity"] included). *)

Definition prec : Z := 53.
Definition emax : Z := 1024.

Definition double := spec_float.

Inductive num :=
| NInt (z : Z)
| NFloat (f : double).

(** Round to nearest, ties to even. *)
Definition of_Z (z : Z) : double := binary_normalize prec emax z 0 false.
Definition fadd : double -> double -> double := SFadd prec emax.
Definition fsub : double -> double -> double := SFsub prec emax.
Definition fmul : double -> double -> double := SFmul prec emax.

(** The value of a finite double [(-1)^s * m * 2^e]. *)
Definition float_q (s : bool) (m : positive) (e : Z) : Q :=
  if 0 <=? e then inject_Z (cond_Zopp s (Zpos m) * 2 ^ e)
  else cond_Zopp s (Zpos m) # Z.to_pos (2 ^ (- e)).

(** A number on the extended real line. *)
Inductive ext :=
| Fin (q : Q)
| Inf (neg : bool)
| NaN.

Definition num_ext (n : num) : ext :=
  match n with
  | NInt z => Fin (inject_Z z)
  | NFloat (S754_zero _) => Fin 0
  | NFloat (S754_finite s m e) => Fin (float_q s m e)
  | NFloat (S754_infinity s) => Inf s
  | NFloat S754_nan => NaN
  end.

Definition qltb (a b : Q) : bool := negb (Qle_bool b a).

(** [a < b]: [int] and [float] compare by their exact values; a
    comparison with a NaN is false. *)
Definition py_lt (a b : num) : bool :=
  match num_ext a, num_ext b with
  | Fin p, Fin q => qltb p q
  | Inf true, (Fin _ | Inf false) => true
  | Fin _, Inf false => true
  | _, _ => false
  end.

(** [PyLong_AsDouble]: an [int] whose rounding overflows is an
    [OverflowError]. *)
Definition int_to_float (z : Z) : result double :=
  match of_Z z with
  | S754_infinity _ => Err OverflowError
  | f => Ok f
  end.

(** [a + b]: exact on two [int]s; otherwise the [int] operand is converted
    and the sum is a double. *)
Definition py_add (a b : num) : result num :=
  match a, b with
  | NInt i, NInt j => Ok (NInt (i + j))
  | NInt i, NFloat g => f <- int_to_float i ;; Ok (NFloat (fadd f g))
  | NFloat f, NInt j => g <- int_to_float j ;; Ok (NFloat (fadd f g))
  | NFloat f, NFloat g => Ok (NFloat (fadd f g))
  end.

(** ** [start_time + timedelta(seconds=duration)]

    A [datetime] as a count of microseconds; days are counted with the
    usual civil-calendar conversion (day 0 is 1970-01-01). *)

Definition days_from_civil (y m d : Z) : Z :=
  let y' := if m <=? 2 then y - 1 else y in
  let era := y' / 400 in
  let yoe := y' - era * 400 in
  let doy := (153 * (if 2 <? m then m - 3 else m + 9) + 2) / 5 + d - 1 in
  let doe := yoe * 365 + yoe / 4 - yoe / 100 + doy in
  era * 146097 + doe - 719468.

Definition civil_from_days (z0 : Z) : Z * Z * Z :=
  let z := z0 + 719468 in
  let era := z / 146097 in
  let doe := z - era * 146097 in
  let yoe := (doe - doe / 1460 + doe / 36524 - doe / 146096) / 365 in
  let y := yoe + era * 400 in
  let doy := doe - (365 * yoe + yoe / 4 - yoe / 100) in
  let mp := (5 * doy + 2) / 153 in
  let d := doy - (153 * mp + 2) / 5 + 1 in
  let m := if mp <? 10 then mp + 3 else mp - 9 in
  (if m <=? 2 then y + 1 else y, m, d).

Definition us_per_day : Z := 86400000000.

Definition to_us (t : datetime) : Z :=
  days_from_civil (year t) (month t) (day t) * us_per_day
  + ((hour t * 60 + minute t) * 60 + second t) * 1000000 + microsecond t.

Definition of_us (x : Z) : datetime :=
  let days := x / us_per_day in
  let r := x mod us_per_day in
  let '(y, m, d) := civil_from_days days in
  let secs := r / 1000000 in
  mk_datetime y m d (secs / 3600) ((secs / 60) mod 60) (secs mod 60)
              (r mod 1000000).

(** [modf]: the integral part (as an [int]) and the fractional part, with
    the sign of the argument; NaN and infinities are returned whole. *)
Definition modf (f : double) : Z * double :=
  match f with
  | S754_finite s m e =>
      if 0 <=? e then (cond_Zopp s (Zpos m * 2 ^ e), S754_zero s)
      else let d := 2 ^ (- e) in
           (cond_Zopp s (Zpos m / d),
            binary_normalize prec emax (cond_Zopp s (Zpos m mod d)) e s)
  | _ => (0, f)
  end.

(** C [round]: half away from zero. *)
Definition c_round (f : double) : double :=
  match f with
  | S754_finite s m e =>
      if 0 <=? e then f
      else let d := 2 ^ (- e) in
           let q := Zpos m / d in
           let q' := if d <=? 2 * (Zpos m mod d) then q + 1 else q in
           binary_normalize prec emax (cond_Zopp s q') 0 s
  | _ => f
  end.

Definition is_zero (f : double) : bool :=
  match f with S754_zero _ => true | _ => false end.

Definition half : double := binary_normalize prec emax 1 (-1) false.

(** [timedelta(seconds=d)] in microseconds, as [delta_new] computes it: an
    [int] is scaled exactly; for a [float], [accum] adds the integral part
    of [d] times [10^6] and the integral part of [1e6 * modf(d)], and the
    fraction left over is rounded to nearest, a tie going to the even
    total.  [PyLong_FromDouble] raises [ValueError] on a NaN and
    [OverflowError] on an infinity. *)
Definition timedelta_us (d : num) : result Z :=
  match d with
  | NInt n => Ok (n * 1000000)
  | NFloat S754_nan => Err ValueError
  | NFloat (S754_infinity _) => Err OverflowError
  | NFloat f =>
      let (ip, fp) := modf f in
      let sum := ip * 1000000 in
      if is_zero fp then Ok sum else
      let (ip2, leftover) := modf (fmul (of_Z 1000000) fp) in
      let x := sum + ip2 in
      if is_zero leftover then Ok x else
      let whole := c_round leftover in
      let whole :=
        if SFeqb (SFabs (fsub whole leftover)) half then
          let odd := Z.land x 1 in
          fsub (fmul (of_Z 2) (c_round (fmul (fadd leftover (of_Z odd)) half)))
               (of_Z odd)
        else whole in
      Ok (x + fst (modf whole))
  end.

(** [microseconds_to_delta_ex]: at most 999999999 days either way. *)
Definition timedelta (d : num) : result Z :=
  us <- timedelta_us d ;;
  if Z.abs (us / us_per_day) <=? 999999999 then Ok us else Err OverflowError.

Definition min_us : Z := to_us (mk_datetime 1 1 1 0 0 0 0).
Definition max_us : Z := to_us (mk_datetime 9999 12 31 23 59 59 999999).

(** [start_time + timedelta(seconds=d)]; out of range is an
    [OverflowError]. *)
Definition add_seconds (t : datetime) (d : num) : result datetime :=
  us <- timedelta d ;;
  let x := to_us t + us in
  if (min_us <=? x) && (x <=? max_us) then Ok (of_us x) else Err OverflowError.

(** ** [datetime.isoformat()] of a naive datetime *)

Fixpoint pad_digits (n : nat) (v : Z) : ustr :=
  match n with
  | O => []
  | S n' => pad_digits n' (v / 10) ++ [48 + v mod 10]
  end.

Definition isoformat (t : datetime) : ustr :=
  pad_digits 4 (year t) ++ u "-" ++ pad_digits 2 (month t) ++ u "-" ++
  pad_digits 2 (day t) ++ u "T" ++ pad_digits 2 (hour t) ++ u ":" ++
  pad_digits 2 (minute t) ++ u ":" ++ pad_digits 2 (second t) ++
  (if microsecond t =? 0 then [] else u "." ++ pad_digits 6 (microsecond t)).

(** [end_time = (start_time + timedelta(seconds=duration)).isoformat() + "Z"] *)
Definition end_time (timestamp : ustr) (duration : num) : result ustr :=
  start_time <- strptime timestamp ;;
  e <- add_seconds start_time duration ;;
  Ok (isoformat e ++ u "Z").

(** ** JSON documents *)

(** A JSON scalar copied to the output. A float is kept as its [repr]. *)
Inductive jv :=
| JStr (s : ustr)
| JInt (z : Z)
| JFloat (repr : ustr)
| JBool (b : bool)
| JNull.

Record ball_pos := mk_ball { x : jv; y : jv; z : jv }.
Record pos2 := mk_pos2 { pos_x : jv; pos_y : jv }.
(** An entry of a sample's ["players"] list: [{team, pos: {x, y}}]. *)
Record player_pos := mk_player_pos { pp_team : ustr; pp_pos : pos2 }.
Record sample := mk_sample {
  event : option ustr;            (** [sample.get("event")] *)
  time : num;
  ball : ball_pos;                (** [sample["ball"]["pos"]] *)
  players : list player_pos }.
Record spin := mk_spin { spin_kind : jv; rpm : jv }.
Record shot := mk_shot {
  shot_no : Z; team : ustr; time_utc : ustr; duration : num;
  sh_stroke : jv; sh_spin : spin; sh_call : jv }.
(** A roster entry of [match["players"]]. *)
Record player := mk_player { pl_team : ustr; external_id : jv }.
Record match_info := mk_match {
  m_season : jv; m_tournament_id : jv; m_draw_code : jv;
  m_players : list player }.
Record sequences := mk_sequences {
  sq_set : jv; sq_game : jv; sq_point : jv; sq_serve : jv; sq_rally : jv }.
Record document := mk_document {
  d_match : option match_info;    (** the top-level ["match"] key *)
  d_sequences : sequences;
  d_samples : list sample;
  d_shots : list shot }.

(** A zip archive: its entries in [namelist()] order, each with its
    content parsed by [json.loads] ([None] when that raises). *)
Definition archive := list (ustr * option document).

(** The row dict built for one shot, field by field in the source's order. *)
Record row := mk_row {
  season : jv; tournament_id : jv; draw_code : jv;
  r_set : jv; game : jv; point : jv; serve : jv; rally : jv;
  shot_n : jv; hitter_external_id : jv;
  stroke : jv; spin_type : jv; spin_rpm : jv; call : jv;
  shot_start_timestamp : jv; shot_end_timestamp : jv;
  ball_hit_x : jv; ball_hit_y : jv; ball_hit_z : jv;
  ball_bounce_x : jv; ball_bounce_y : jv;
  hitter_x : jv; hitter_y : jv; receiver_x : jv; receiver_y : jv }.

(** ** Python helpers used by the loop *)

(** [l[i]], negative indices counting from the end. *)
Definition py_index {A} (l : list A) (i : Z) : result A :=
  let n := Z.of_nat (List.length l) in
  let j := if i <? 0 then i + n else i in
  if (0 <=? j) && (j <? n) then
    match nth_error l (Z.to_nat j) with
    | Some v => Ok v
    | None => Err IndexError
    end
  else Err IndexError.

(** [{player["team"]: player for player in match["players"]}[k]]:
    a later entry with the same team replaces an earlier one. *)
Definition players_lookup (ps : list player) (k : ustr) : result player :=
  match find (fun p => ustr_eqb (pl_team p) k) (rev ps) with
  | Some p => Ok p
  | None => Err KeyError
  end.

Definition is_event (e : string) (s : sample) : bool :=
  match event s with
  | Some v => ustr_eqb v (u e)
  | None => false
  end.

(** [hit["time"] < x["time"] < hit["time"] + duration]: a chained
    comparison, so the sum is only computed when the first comparison
    holds. *)
Definition in_window (hit : sample) (dur : num) (b : sample) : result bool :=
  if py_lt (time hit) (time b) then
    upper <- py_add (time hit) dur ;;
    Ok (py_lt (time b) upper)
  else Ok false.

(** [next((x for x in l if f(x)), None)]: the first element that passes,
    the tests run in order until then. *)
Fixpoint find_res {A} (f : A -> result bool) (l : list A) : result (option A) :=
  match l with
  | [] => Ok None
  | v :: t => c <- f v ;; if c then Ok (Some v) else find_res f t
  end.

(** The key [x["team"] == shot["team"]] with [reverse=True]: [True]
    sorts before [False]. *)
Definition team_first (t : ustr) (p q : player_pos) : bool :=
  ustr_eqb (pp_team p) t && negb (ustr_eqb (pp_team q) t).

(** ** The body of [for shot in data["shots"]]

    [Ok None] is the [continue] of the guard, [Ok (Some r)] appends [r]. *)
Definition process_shot (m : match_info) (sq : sequences)
    (hits bounces : list sample) (s : shot) : result (option row) :=
  let shot_n := shot_no s in
  if Z.of_nat (List.length hits) <? shot_n then Ok None else
  let timestamp := time_utc s in
  let dur := duration s in
  end_t <- end_time timestamp dur ;;
  hit <- py_index hits (shot_n - 1) ;;
  bounce <- find_res (in_window hit dur) bounces ;;
  let hit_players_positions := sort_by (team_first (team s)) (players hit) in
  let hit_ball := ball hit in
  let bounce_ball :=
    match bounce with
    | Some b => (x (ball b), y (ball b))
    | None => (JStr [], JStr [])
    end in
  hitter <- players_lookup (m_players m) (team s) ;;
  p0 <- py_index hit_players_positions 0 ;;
  p1 <- py_index hit_players_positions 1 ;;
  Ok (Some (mk_row
    (m_season m) (m_tournament_id m) (m_draw_code m)
    (sq_set sq) (sq_game sq) (sq_point sq) (sq_serve sq) (sq_rally sq)
    (JInt shot_n) (external_id hitter)
    (sh_stroke s) (spin_kind (sh_spin s)) (rpm (sh_spin s)) (sh_call s)
    (JStr timestamp) (JStr end_t)
    (x hit_ball) (y hit_ball) (z hit_ball)
    (fst bounce_ball) (snd bounce_ball)
    (pos_x (pp_pos p0)) (pos_y (pp_pos p0))
    (pos_x (pp_pos p1)) (pos_y (pp_pos p1)))).

Definition hits_of (d : document) : list sample :=
  filter (is_event "hit") (d_samples d).

Definition bounces_of (d : document) : list sample :=
  filter (is_event "bounce") (d_samples d).

(** The outcome of every shot of a document, in order. *)
Definition process_doc (m : match_info) (d : document)
    : result (list (option row)) :=
  mapM (process_shot m (d_sequences d) (hits_of d) (bounces_of d)) (d_shots d).

Definition emitted (outs : list (option row)) : list row :=
  flat_map (fun o => match o with Some r => [r] | None => [] end) outs.

(** The rows one document appends to [rows]. *)
Definition doc_rows (m : match_info) (d : document) : result (list row) :=
  outs <- process_doc m d ;;
  Ok (emitted outs).

(** ** [files_content] and the main loop *)

(** [zip_ref.open(f"data/{file_name}.json")]: the last entry of that name;
    a missing name is a [KeyError]. *)
Definition open_entry (a : archive) (file_name : ustr) : result document :=
  match find (fun e => ustr_eqb (fst e) (u "data/" ++ file_name ++ u ".json"))
             (rev a) with
  | None => Err KeyError
  | Some (_, None) => Err JSONDecodeError
  | Some (_, Some d) => Ok d
  end.

(** [match] is [None] exactly before the first document, which sets it. *)
Fixpoint main_loop (a : archive) (m : option match_info)
    (names : list ustr) (rows : list row) : result (list row) :=
  match names with
  | [] => Ok rows
  | name :: rest =>
      data <- open_entry a name ;;
      m' <- match m with
            | Some m0 => Ok m0
            | None => match d_match data with
                      | Some m0 => Ok m0
                      | None => Err KeyError
                      end
            end ;;
      new_rows <- doc_rows m' data ;;
      main_loop a (Some m') rest (rows ++ new_rows)
  end.

(** Every row the script collects, before [result.csv] is opened. *)
Definition process_all (a : archive) : result (list row) :=
  names <- sort_files (map fst a) ;;
  main_loop a None names [].

(** The rows each document contributes, document by document. *)
Definition docs_rows (a : archive) (m : match_info) (names : list ustr)
    (per : list (list row)) : Prop :=
  Forall2 (fun n rs => exists d, open_entry a n = Ok d /\ doc_rows m d = Ok rs) names per.

(** ** The CSV writer *)

Fixpoint dec_aux (fuel : nat) (n : Z) (acc : ustr) : ustr :=
  match fuel with
  | O => acc
  | S f =>
      let acc' := (48 + n mod 10) :: acc in
      if n / 10 =? 0 then acc' else dec_aux f (n / 10) acc'
  end.

(** [str(n)] for an [int]. *)
Definition str_int (n : Z) : ustr :=
  let a := Z.abs n in
  let ds := dec_aux (S (Z.to_nat (Z.log2 a))) a [] in
  if n <? 0 then 45 :: ds else ds.

(** What [csv.writer] writes for a value: [None] is the empty string, other
    values are [str]'d. *)
Definition cell (v : jv) : ustr :=
  match v with
  | JStr s => s
  | JInt n => str_int n
  | JFloat r => r
  | JBool true => u "True"
  | JBool false => u "False"
  | JNull => []
  end.

Definition quote : Z := 34.

(** [QUOTE_MINIMAL]: quote a field holding the delimiter, the quote
    character or a line-terminator character; double inner quotes. *)
Definition needs_quotes (s : ustr) : bool :=
  existsb (fun c => (c =? 44) || (c =? quote) || (c =? 10) || (c =? 13)) s.

Definition csv_field (s : ustr) : ustr :=
  if needs_quotes s then
    [quote] ++ flat_map (fun c => if c =? quote then [quote; quote] else [c]) s
    ++ [quote]
  else s.

Fixpoint join_fields (fs : list ustr) : ustr :=
  match fs with
  | [] => []
  | [f] => csv_field f
  | f :: rest => csv_field f ++ [44] ++ join_fields rest
  end.

Definition csv_line (fs : list ustr) : ustr := join_fields fs ++ u (String "013" (String "010" EmptyString)).

(** The row dict as [(key, value)] pairs in insertion order. *)
Definition row_items (r : row) : list (ustr * jv) :=
  [(u "season", season r); (u "tournament_id", tournament_id r);
   (u "draw_code", draw_code r); (u "set", r_set r); (u "game", game r);
   (u "point", point r); (u "serve", serve r); (u "rally", rally r);
   (u "shot_n", shot_n r); (u "hitter_external_id", hitter_external_id r);
   (u "stroke", stroke r); (u "spin_type", spin_type r);
   (u "spin_rpm", spin_rpm r); (u "call", call r);
   (u "shot_start_timestamp", shot_start_timestamp r);
   (u "shot_end_timestamp", shot_end_timestamp r);
   (u "ball_hit_x", ball_hit_x r); (u "ball_hit_y", ball_hit_y r);
   (u "ball_hit_z", ball_hit_z r);
   (u "ball_bounce_x", ball_bounce_x r); (u "ball_bounce_y", ball_bounce_y r);
   (u "hitter_x", hitter_x r); (u "hitter_y", hitter_y r);
   (u "receiver_x", receiver_x r); (u "receiver_y", receiver_y r)].

(** [DictWriter._dict_to_list]: [rowdict.get(key, "")] for each field. *)
Definition dict_to_list (fieldnames : list ustr) (r : row) : list ustr :=
  map (fun k => match find (fun kv => ustr_eqb (fst kv) k) (row_items r) with
                | Some kv => cell (snd kv)
                | None => []
                end) fieldnames.

(** The text file is UTF-8 with [errors="strict"]: a lone surrogate
    cannot be encoded. *)
Definition encodable (c : Z) : bool := negb ((55296 <=? c) && (c <=? 57343)).

(** One [file.write]: what has been written so far stays in the file (it
    is flushed when the [with] block closes it, also on an exception). *)
Definition write_text (content s : ustr) : result ustr :=
  if forallb encodable s then Ok (content ++ s) else Err UnicodeEncodeError.

(** [writer.writerows(rows)]: one line per row. *)
Fixpoint write_rows (content : ustr) (fieldnames : list ustr) (rows : list row)
    : result unit * ustr :=
  match rows with
  | [] => (Ok tt, content)
  | r :: rest =>
      match write_text content (csv_line (dict_to_list fieldnames r)) with
      | Ok c => write_rows c fieldnames rest
      | Err e => (Err e, content)
      end
  end.

(** The [with open("result.csv", mode="w", newline="")] block: the file is
    truncated first, then [rows[0]] gives the header. *)
Definition write_csv (rows : list row) : result unit * ustr :=
  match rows with
  | [] => (Err IndexError, [])
  | r0 :: _ =>
      let fieldnames := map fst (row_items r0) in
      match write_text [] (csv_line fieldnames) with
      | Ok c => write_rows c fieldnames rows
      | Err e => (Err e, [])
      end
  end.

(** A whole run on an archive, given the content of [result.csv] before it
    ([None]: no such file). *)
Definition run (a : archive) (file : option ustr) : result unit * option ustr :=
  match process_all a with
  | Err e => (Err e, file)
  | Ok rows => let (res, content) := write_csv rows in (res, Some content)
  end.

(** ** Concrete inputs

    The round-trip scenario of the specification: one document, one hit at
    time 10 with the ball at (1, 2, 3), one bounce at 10.5 with the ball at
    (4, 5, 0), one shot of team A starting 2023-01-01T00:00:00.000000Z and
    lasting one second. *)

(** The JSON float [n * 2^e] (exact for the literals used here). *)
Definition dbl (n e : Z) : num := NFloat (binary_normalize prec emax n e false).

Definition pos_A := mk_player_pos (u "A") (mk_pos2 (JInt 0) (JInt 1)).
Definition pos_B := mk_player_pos (u "B") (mk_pos2 (JInt 5) (JInt 6)).

Definition ex_hit : sample :=
  mk_sample (Some (u "hit")) (NInt 10) (mk_ball (JInt 1) (JInt 2) (JInt 3))
            [pos_B; pos_A].

Definition ex_bounce : sample :=
  mk_sample (Some (u "bounce")) (dbl 21 (-1)) (mk_ball (JInt 4) (JInt 5) (JInt 0)) [].

Definition ex_shot : shot :=
  mk_shot 1 (u "A") (u "2023-01-01T00:00:00.000000Z") (NInt 1)
          (JStr (u "forehand")) (mk_spin (JStr (u "topspin")) (JInt 2000))
          (JStr (u "in")).

Definition ex_match : match_info :=
  mk_match (JInt 2023) (JStr (u "T1")) (JStr (u "MS"))
           [mk_player (u "A") (JStr (u "pa")); mk_player (u "B") (JStr (u "pb"))].

Definition ex_seq : sequences :=
  mk_sequences (JInt 1) (JInt 2) (JInt 3) (JInt 1) (JInt 4).

Definition ex_doc : document :=
  mk_document (Some ex_match) ex_seq [ex_hit; ex_bounce] [ex_shot].

Definition ex_archive : archive := [(u "data/1.json", Some ex_doc)].

Definition with_shot_no (s : shot) (n : Z) : shot :=
  mk_shot n (team s) (time_utc s) (duration s) (sh_stroke s) (sh_spin s) (sh_call s).

Definition with_call (s : shot) (c : jv) : shot :=
  mk_shot (shot_no s) (team s) (time_utc s) (duration s) (sh_stroke s) (sh_spin s) c.

Definition with_shots (d : document) (l : list shot) : document :=
  mk_document (d_match d) (d_sequences d) (d_samples d) l.

Definition null_row : row :=
  mk_row JNull JNull JNull JNull JNull JNull JNull JNull JNull JNull JNull JNull
         JNull JNull JNull JNull JNull JNull JNull JNull JNull JNull JNull JNull
         JNull.

(** The row of a shot that produced one ([null_row] otherwise). *)
Definition row_of (o : result (option row)) : row :=
  match o with Ok (Some r) => r | _ => null_row end.

(** The value of a successful computation ([dflt] otherwise). *)
Definition ok_or {A} (dflt : A) (r : result A) : A :=
  match r with Ok a => a | Err _ => dflt end.

(** * Lemmas *)

Lemma res_bind_ok {A B} (m : result A) (f : A -> result B) b :
  res_bind m f = Ok b -> exists a, m = Ok a /\ f a = Ok b.
Proof. destruct m as [a|e]; simpl; [eauto | discriminate]. Qed.

Ltac inv_bind H :=
  repeat match type of H with
  | res_bind ?m _ = Ok _ =>
      let a := fresh "a" in let E := fresh "E" in
      apply res_bind_ok in H; destruct H as [a [E H]]
  end.

Lemma mapM_nth {A B} (f : A -> result B) l outs i v :
  mapM f l = Ok outs -> nth_error l i = Some v ->
  exists w, f v = Ok w /\ nth_error outs i = Some w.
Proof.
  revert outs i. induction l as [|h t IH]; intros outs i H Hn.
  - destruct i; discriminate.
  - simpl in H. inv_bind H. injection H as <-.
    destruct i as [|i]; simpl in Hn.
    + injection Hn as ->. eauto.
    + destruct (IH _ _ E0 Hn) as [w [Hw Hw']]. eauto.
Qed.

Lemma mapM_app {A B} (f : A -> result B) l1 l2 :
  mapM f (l1 ++ l2) = (o1 <- mapM f l1 ;; o2 <- mapM f l2 ;; Ok (o1 ++ o2)).
Proof.
  induction l1 as [|h t IH]; simpl.
  - destruct (mapM f l2); reflexivity.
  - rewrite IH. destruct (f h); simpl; [|reflexivity].
    destruct (mapM f t); simpl; [|reflexivity].
    destruct (mapM f l2); reflexivity.
Qed.

Lemma emitted_app l1 l2 : emitted (l1 ++ l2) = emitted l1 ++ emitted l2.
Proof. unfold emitted. apply flat_map_app. Qed.

Lemma py_index_nonneg {A} (l : list A) i v :
  0 <= i -> nth_error l (Z.to_nat i) = Some v -> py_index l i = Ok v.
Proof.
  intros Hi Hn. unfold py_index.
  assert (Hlt : (Z.to_nat i < List.length l)%nat)
    by (apply nth_error_Some; congruence).
  replace (i <? 0) with false by (symmetry; apply Z.ltb_ge; lia).
  replace ((0 <=? i) && (i <? Z.of_nat (List.length l))) with true
    by (symmetry; apply andb_true_iff; split; [apply Z.leb_le | apply Z.ltb_lt]; lia).
  now rewrite Hn.
Qed.

Lemma py_index_spec {A} (l : list A) i v :
  py_index l i = Ok v ->
  let j := if i <? 0 then i + Z.of_nat (List.length l) else i in
  0 <= j < Z.of_nat (List.length l) /\ nth_error l (Z.to_nat j) = Some v.
Proof.
  intros H. cbv zeta. unfold py_index in H. cbv zeta in H.
  set (j := if i <? 0 then i + Z.of_nat (List.length l) else i) in *.
  destruct ((0 <=? j) && (j <? Z.of_nat (List.length l))) eqn:E; [|discriminate].
  apply andb_true_iff in E as [E1 E2]. apply Z.leb_le in E1. apply Z.ltb_lt in E2.
  split; [lia|]. destruct (nth_error l (Z.to_nat j)); congruence.
Qed.

Lemma py_index_length {A} (l : list A) i v :
  py_index l i = Ok v -> - Z.of_nat (List.length l) <= i < Z.of_nat (List.length l).
Proof.
  intros H. apply py_index_spec in H as [H _]. destruct (Z.ltb_spec i 0); lia.
Qed.

(** What a successful shot is built from. *)
Lemma process_shot_row m sq hits bounces s r :
  process_shot m sq hits bounces s = Ok (Some r) ->
  exists end_t hit bo hitter p0 p1,
    shot_no s <= Z.of_nat (List.length hits) /\
    end_time (time_utc s) (duration s) = Ok end_t /\
    py_index hits (shot_no s - 1) = Ok hit /\
    find_res (in_window hit (duration s)) bounces = Ok bo /\
    players_lookup (m_players m) (team s) = Ok hitter /\
    py_index (sort_by (team_first (team s)) (players hit)) 0 = Ok p0 /\
    py_index (sort_by (team_first (team s)) (players hit)) 1 = Ok p1 /\
    let bounce_ball :=
      match bo with
      | Some b => (x (ball b), y (ball b))
      | None => (JStr [], JStr [])
      end in
    r = mk_row
      (m_season m) (m_tournament_id m) (m_draw_code m)
      (sq_set sq) (sq_game sq) (sq_point sq) (sq_serve sq) (sq_rally sq)
      (JInt (shot_no s)) (external_id hitter)
      (sh_stroke s) (spin_kind (sh_spin s)) (rpm (sh_spin s)) (sh_call s)
      (JStr (time_utc s)) (JStr end_t)
      (x (ball hit)) (y (ball hit)) (z (ball hit))
      (fst bounce_ball) (snd bounce_ball)
      (pos_x (pp_pos p0)) (pos_y (pp_pos p0))
      (pos_x (pp_pos p1)) (pos_y (pp_pos p1)).
Proof.
  unfold process_shot. cbv zeta. intros H.
  destruct (Z.ltb_spec (Z.of_nat (List.length hits)) (shot_no s)); [discriminate|].
  inv_bind H. injection H as <-.
  exists a, a0, a1, a2, a3, a4. repeat split; auto.
Qed.

Lemma process_shot_skip m sq hits bounces s :
  Z.of_nat (List.length hits) < shot_no s ->
  process_shot m sq hits bounces s = Ok None.
Proof.
  intros H. unfold process_shot. cbv zeta.
  now replace (Z.of_nat (List.length hits) <? shot_no s) with true
    by (symmetry; apply Z.ltb_lt; lia).
Qed.

(** Below the bound the guard lets the shot through: it is never
    dropped silently. *)
Lemma process_shot_not_skipped m sq hits bounces s :
  shot_no s <= Z.of_nat (List.length hits) ->
  process_shot m sq hits bounces s <> Ok None.
Proof.
  intros H. unfold process_shot. cbv zeta.
  replace (Z.of_nat (List.length hits) <? shot_no s) with false
    by (symmetry; apply Z.ltb_ge; lia).
  intros E. inv_bind E. discriminate.
Qed.

Lemma qltb_spec a b : qltb a b = true <-> (a < b)%Q.
Proof.
  unfold qltb. rewrite negb_true_iff. split; intros H.
  - apply Qnot_le_lt. intros H'. apply Qle_bool_iff in H'. congruence.
  - destruct (Qle_bool b a) eqn:E; [|reflexivity].
    apply Qle_bool_iff in E. apply Qle_not_lt in E. contradiction.
Qed.

Lemma find_res_first {A} (f : A -> result bool) l v :
  find_res f l = Ok (Some v) ->
  exists i, nth_error l i = Some v /\ f v = Ok true /\
    forall j w, (j < i)%nat -> nth_error l j = Some w -> f w = Ok false.
Proof.
  induction l as [|h t IH]; simpl; [discriminate|].
  destruct (f h) as [[|]|e] eqn:Eh; simpl; intros H.
  - injection H as <-. exists 0%nat. repeat split; auto. intros j w Hj. lia.
  - destruct (IH H) as [i [Hi [Hv Hb]]]. exists (S i). repeat split; auto.
    intros [|j] w Hj Hw; simpl in Hw.
    + congruence.
    + apply (Hb j); [lia | exact Hw].
  - discriminate.
Qed.

Lemma find_res_none {A} (f : A -> result bool) l :
  find_res f l = Ok None -> forall v, In v l -> f v = Ok false.
Proof.
  induction l as [|h t IH]; simpl; [tauto|].
  destruct (f h) as [[|]|e] eqn:Eh; simpl; intros H v Hv; try discriminate.
  destruct Hv as [<-|Hv]; auto.
Qed.

Lemma py_add_err a b e : py_add a b = Err e -> e = OverflowError.
Proof.
  unfold py_add, int_to_float.
  destruct a, b; try discriminate; destruct (of_Z _); simpl; congruence.
Qed.

Lemma in_window_err hit d b e : in_window hit d b = Err e -> e = OverflowError.
Proof.
  unfold in_window. destruct (py_lt _ _); [|discriminate].
  destruct (py_add _ _) eqn:E; simpl; [discriminate|].
  intros H. injection H as <-. now apply py_add_err in E.
Qed.

Lemma find_res_window_err hit d l e :
  find_res (in_window hit d) l = Err e -> e = OverflowError.
Proof.
  induction l as [|h t IH]; simpl; [discriminate|].
  destruct (in_window hit d h) as [[|]|e'] eqn:E; simpl; auto; [discriminate|].
  intros H. injection H as <-. now apply in_window_err in E.
Qed.

Lemma ustr_eqb_spec a b : ustr_eqb a b = true <-> a = b.
Proof. unfold ustr_eqb. destruct (list_eq_dec Z.eq_dec a b); split; congruence. Qed.

Section TeamFirst.
Variable t : ustr.
Let key (p : player_pos) : bool := ustr_eqb (pp_team p) t.

Lemma insert_team_first_hitter p l :
    key p = true -> insert_by (team_first t) p l = p :: l.
  Proof.
    intros Hp. destruct l as [|q l]; simpl; [reflexivity|].
    unfold team_first. fold (key q) (key p). now rewrite Hp, andb_false_r.
  Qed.

Lemma insert_team_first_other p l1 l2 :
    key p = false -> Forall (fun q => key q = true) l1 ->
    Forall (fun q => key q = false) l2 ->
    insert_by (team_first t) p (l1 ++ l2) = l1 ++ p :: l2.
  Proof.
    intros Hp H1 H2. induction H1 as [|q l1 Hq H1 IH]; simpl.
    - destruct l2 as [|q l2]; simpl; [reflexivity|].
      inversion H2 as [|? ? Hq _]; subst.
      unfold team_first. fold (key q). now rewrite Hq.
    - assert (E : team_first t q p = true).
      { unfold team_first. fold (key q) (key p). now rewrite Hq, Hp. }
      rewrite E. now rewrite IH.
  Qed.

  (** [sorted(..., key=lambda x: x["team"] == team, reverse=True)] is a
      stable partition. *)
Lemma sort_team_first l :
    sort_by (team_first t) l = filter key l ++ filter (fun p => negb (key p)) l.
  Proof.
    induction l as [|p l IH]; simpl; [reflexivity|].
    rewrite IH. destruct (key p) eqn:Hp; simpl.
    - now apply insert_team_first_hitter.
    - apply insert_team_first_other; auto.
      + apply Forall_forall. intros q Hq. now apply filter_In in Hq.
      + apply Forall_forall. intros q Hq. apply filter_In in Hq.
        now apply negb_true_iff.
  Qed.
End TeamFirst.

Lemma py_index_err {A} (l : list A) i e : py_index l i = Err e -> e = IndexError.
Proof.
  unfold py_index. cbv zeta.
  destruct (_ && _); [destruct nth_error|]; congruence.
Qed.

Lemma py_index_in_range {A} (l : list A) i :
  - Z.of_nat (List.length l) <= i < Z.of_nat (List.length l) ->
  exists v, py_index l i = Ok v.
Proof.
  intros H. unfold py_index. cbv zeta.
  set (j := if i <? 0 then i + Z.of_nat (List.length l) else i).
  assert (Hj : 0 <= j < Z.of_nat (List.length l))
    by (subst j; destruct (Z.ltb_spec i 0); lia).
  replace ((0 <=? j) && (j <? Z.of_nat (List.length l))) with true
    by (symmetry; apply andb_true_iff; split; [apply Z.leb_le | apply Z.ltb_lt]; lia).
  destruct (nth_error l (Z.to_nat j)) eqn:E; [eauto|].
  apply nth_error_None in E. lia.
Qed.

Lemma py_index_out_of_range {A} (l : list A) i :
  ~ (- Z.of_nat (List.length l) <= i < Z.of_nat (List.length l)) ->
  py_index l i = Err IndexError.
Proof.
  intros H. destruct (py_index l i) as [v|e] eqn:E.
  - apply py_index_length in E. contradiction.
  - now apply py_index_err in E as ->.
Qed.

Lemma length_sort_by {A} (lt : A -> A -> bool) l :
  List.length (sort_by lt l) = List.length l.
Proof.
  assert (Hi : forall a k, List.length (insert_by lt a k) = S (List.length k)).
  { intros a k. induction k as [|b k IH]; simpl; [reflexivity|].
    destruct (lt b a); simpl; auto. }
  induction l as [|a l IH]; simpl; [reflexivity|]. now rewrite Hi, IH.
Qed.

Lemma strptime_err ts e : strptime ts = Err e -> e = ValueError.
Proof.
  unfold strptime. destruct (strptime_fields ts); [destruct datetime_valid|]; congruence.
Qed.

Lemma timedelta_err d e : timedelta d = Err e -> e = ValueError \/ e = OverflowError.
Proof.
  unfold timedelta. destruct (timedelta_us d) as [us|e'] eqn:E; cbn [res_bind].
  - destruct (_ <=? _); intros H; [discriminate | injection H; auto].
  - intros H. injection H as <-. unfold timedelta_us in E.
    destruct d as [n|f]; [discriminate|].
    destruct f; try (injection E as <-; auto; fail);
    repeat match type of E with
    | context [let (_, _) := ?p in _] => destruct p
    | context [if ?b then _ else _] => destruct b
    end; discriminate.
Qed.

Lemma end_time_err ts d e : end_time ts d = Err e -> e = ValueError \/ e = OverflowError.
Proof.
  unfold end_time, add_seconds.
  destruct (strptime ts) eqn:Es; cbn [res_bind].
  2:{ intros H. injection H as <-. left. now apply strptime_err in Es. }
  destruct (timedelta d) eqn:Et; cbn [res_bind].
  - destruct (_ && _); [discriminate | intros H; injection H; auto].
  - intros H. injection H as <-. now apply timedelta_err in Et.
Qed.

Lemma players_lookup_err ps k e : players_lookup ps k = Err e -> e = KeyError.
Proof. unfold players_lookup. destruct find; congruence. Qed.

Lemma pad_digits_no_plus n v : ~ In 43 (pad_digits n v).
Proof.
  revert v. induction n as [|n IH]; intros v; cbn [pad_digits In]; [tauto|].
  rewrite in_app_iff. intros [H | [H | []]]; [exact (IH _ H)|].
  assert (0 <= v mod 10 < 10) by (apply Z.mod_pos_bound; lia). lia.
Qed.

(** An [isoformat] text never carries a UTC offset sign. *)
Lemma isoformat_no_plus t : ~ In 43 (isoformat t ++ u "Z").
Proof.
  intros H. unfold isoformat in H.
  destruct (microsecond t =? 0); rewrite !in_app_iff in H;
    repeat match type of H with
    | _ \/ _ => destruct H as [H|H]
    | In 43 (pad_digits _ _) => exact (pad_digits_no_plus _ _ H)
    | In _ _ => simpl in H
    | _ = _ => discriminate H
    | False => exact H
    end.
Qed.

Lemma write_text_err c s e : write_text c s = Err e -> e = UnicodeEncodeError.
Proof. unfold write_text. destruct forallb; congruence. Qed.

Lemma write_rows_failure c fn rows e content :
  write_rows c fn rows = (Err e, content) ->
  e = UnicodeEncodeError /\
  exists k, (k < List.length rows)%nat /\
    content = c ++ List.concat (map (fun r => csv_line (dict_to_list fn r)) (firstn k rows)).
Proof.
  revert c. induction rows as [|r rest IH]; intros c H; simpl in H; [discriminate|].
  destruct (write_text c (csv_line (dict_to_list fn r))) as [c'|e'] eqn:E.
  - destruct (IH _ H) as [He [k [Hk ->]]]. split; [exact He|].
    exists (S k). split; [simpl; lia|].
    unfold write_text in E. destruct forallb; [|discriminate]. injection E as <-.
    simpl. now rewrite app_assoc.
  - injection H as -> <-. split; [now apply write_text_err in E|].
    exists 0%nat. split; [simpl; lia|]. simpl. now rewrite app_nil_r.
Qed.

(** The header [DictWriter] writes: the keys of any row. *)
Definition header_fields : list ustr := map fst (row_items null_row).

Lemma row_items_keys r : map fst (row_items r) = header_fields.
Proof. reflexivity. Qed.

Definition csv_row (r : row) : ustr := csv_line (dict_to_list header_fields r).

(** ** The order of [sort_files] *)

Lemma lex_lt_irrefl a : lex_lt a a = false.
Proof.
  induction a as [|h t IH]; simpl; [reflexivity|]. now rewrite Z.ltb_irrefl.
Qed.

Lemma lex_lt_asym a b : lex_lt a b = true -> lex_lt b a = false.
Proof.
  revert b. induction a as [|h t IH]; intros [|h' t'] H; simpl in *; try easy.
  destruct (Z.ltb_spec h h'), (Z.ltb_spec h' h); try lia; auto.
Qed.

Lemma lex_lt_trans a b c : lex_lt a b = true -> lex_lt b c = true -> lex_lt a c = true.
Proof.
  revert b c. induction a as [|h t IH]; intros [|h1 t1] [|h2 t2] H1 H2;
    simpl in *; try easy.
  destruct (Z.ltb_spec h h1), (Z.ltb_spec h1 h), (Z.ltb_spec h1 h2), (Z.ltb_spec h2 h1),
    (Z.ltb_spec h h2), (Z.ltb_spec h2 h); try lia; try easy.
  eauto.
Qed.

Lemma lex_lt_total a b : a <> b -> lex_lt a b = true \/ lex_lt b a = true.
Proof.
  revert b. induction a as [|h t IH]; intros [|h' t'] H; simpl; auto.
  destruct (Z.ltb_spec h h'), (Z.ltb_spec h' h); auto.
  assert (h = h') by lia. subst. apply IH. congruence.
Qed.

Section StableSort.
Context {A : Type} (lt : A -> A -> bool).
Hypothesis lt_asym : forall a b, lt a b = true -> lt b a = false.

Definition not_after (a b : A) : Prop := lt b a = false.

Lemma insert_by_perm x l : Permutation (x :: l) (insert_by lt x l).
  Proof.
    induction l as [|y l IH]; simpl; [reflexivity|].
    destruct (lt y x); [|reflexivity].
    rewrite perm_swap. now apply perm_skip.
  Qed.

Lemma sort_by_perm l : Permutation l (sort_by lt l).
  Proof.
    induction l as [|x l IH]; simpl; [reflexivity|].
    rewrite <- insert_by_perm. now apply perm_skip.
  Qed.

Lemma insert_by_head y x l :
    not_after y x -> HdRel not_after y l -> HdRel not_after y (insert_by lt x l).
  Proof.
    intros Hyx Hl. destruct l as [|z l]; simpl; [now constructor|].
    destruct (lt z x); constructor; [now inversion Hl | exact Hyx].
  Qed.

Lemma insert_by_sorted x l : Sorted not_after l -> Sorted not_after (insert_by lt x l).
  Proof.
    induction l as [|y l IH]; intros H; simpl; [now repeat constructor|].
    destruct (lt y x) eqn:E.
    - inversion H as [|? ? Hl Hhd]; subst. constructor; [now apply IH|].
      apply insert_by_head; [unfold not_after; now apply lt_asym | exact Hhd].
    - constructor; [exact H | now constructor].
  Qed.

Lemma sort_by_sorted l : Sorted not_after (sort_by lt l).
  Proof.
    induction l as [|x l IH]; simpl; [constructor|]. now apply insert_by_sorted.
  Qed.
End StableSort.

Lemma strongly_sorted_unique {A} (R : A -> A -> Prop) l1 l2 :
  (forall a b, R a b -> R b a -> False) ->
  StronglySorted R l1 -> StronglySorted R l2 -> Permutation l1 l2 -> l1 = l2.
Proof.
  intros Hasym. revert l2. induction l1 as [|a t1 IH]; intros l2 H1 H2 Hp.
  - now apply Permutation_nil in Hp.
  - destruct l2 as [|b t2]; [now apply Permutation_sym, Permutation_nil in Hp|].
    apply StronglySorted_inv in H1 as [S1 F1]. apply StronglySorted_inv in H2 as [S2 F2].
    assert (Ha : In a (b :: t2)) by (eapply Permutation_in; [exact Hp | now left]).
    destruct Ha as [<- | Ha].
    + f_equal. apply IH; auto. eapply Permutation_cons_inv. exact Hp.
    + exfalso. assert (Rba : R b a) by (eapply Forall_forall; eauto).
      assert (Hb : In b (a :: t1))
        by (eapply Permutation_in; [apply Permutation_sym; exact Hp | now left]).
      destruct Hb as [-> | Hb].
      * exact (Hasym _ _ Rba Rba).
      * assert (Rab : R a b) by (eapply Forall_forall; eauto).
        exact (Hasym _ _ Rab Rba).
Qed.

Lemma key_lt_asym p q : key_lt p q = true -> key_lt q p = false.
Proof. apply lex_lt_asym. Qed.

(** With pairwise distinct keys, the stable sort orders strictly. *)
Lemma sort_files_strict c :
  NoDup (map fst c) ->
  StronglySorted (fun p q => key_lt p q = true) (sort_by key_lt c).
Proof.
  intros Hnd.
  assert (Hnd' : NoDup (map fst (sort_by key_lt c))).
  { eapply Permutation_NoDup; [apply Permutation_map, sort_by_perm | exact Hnd]. }
  pose proof (sort_by_sorted key_lt key_lt_asym c) as Hs.
  apply Sorted_StronglySorted; [intros p q r; apply lex_lt_trans|].
  revert Hnd' Hs. generalize (sort_by key_lt c). clear.
  intros l Hnd Hs. induction Hs as [|p l Hs IH Hhd]; constructor.
  - apply IH. simpl in Hnd. now inversion Hnd.
  - destruct l as [|q l]; constructor. inversion Hhd as [|? ? Hqp]; subst.
    unfold not_after, key_lt in Hqp. unfold key_lt.
    simpl in Hnd. inversion Hnd as [|? ? Hnin _]; subst.
    assert (Hne : fst p <> fst q) by (intros E; apply Hnin; rewrite E; now left).
    destruct (lex_lt_total _ _ Hne) as [H|H]; congruence.
Qed.

(** Entries whose key is [k]. *)
Definition key_eqb (k : list Z) (p : list Z * ustr) : bool :=
  if list_eq_dec Z.eq_dec (fst p) k then true else false.

Lemma insert_by_key_filter k x l :
  filter (key_eqb k) (insert_by key_lt x l)
  = if key_eqb k x then x :: filter (key_eqb k) l else filter (key_eqb k) l.
Proof.
  induction l as [|y l IH]; cbn [insert_by filter].
  - destruct (key_eqb k x); reflexivity.
  - destruct (key_lt y x) eqn:Eyx; cbn [filter].
    + rewrite IH. destruct (key_eqb k y) eqn:Ey, (key_eqb k x) eqn:Ex; try reflexivity.
      exfalso. unfold key_eqb in Ey, Ex.
      destruct (list_eq_dec Z.eq_dec (fst y) k) as [Hy|]; [|discriminate].
      destruct (list_eq_dec Z.eq_dec (fst x) k) as [Hx|]; [|discriminate].
      unfold key_lt in Eyx. rewrite Hy, Hx, lex_lt_irrefl in Eyx. discriminate.
    + destruct (key_eqb k x); reflexivity.
Qed.

(** The stable sort keeps the archive order among entries of equal key. *)
Lemma sort_by_key_filter k l :
  filter (key_eqb k) (sort_by key_lt l) = filter (key_eqb k) l.
Proof.
  induction l as [|x l IH]; cbn [sort_by]; [reflexivity|].
  rewrite insert_by_key_filter, IH. cbn [filter]. destruct (key_eqb k x); reflexivity.
Qed.

Lemma digits_err s e : digits s = Err e -> e = ValueError.
Proof.
  unfold digits. destruct existsb; [congruence|].
  destruct digits_from; [destruct (_ <=? _)|]; congruence.
Qed.

Lemma py_int_err s e : py_int s = Err e -> e = ValueError.
Proof.
  unfold py_int. destruct (to_ascii_str s) as [a|]; [|congruence].
  destruct (strip a) as [|c r]; [congruence|].
  destruct (c =? 45); [|destruct (c =? 43)]; [|apply digits_err..].
  destruct (digits r) eqn:E; simpl; [discriminate|].
  intros H. injection H as <-. now apply digits_err in E.
Qed.

Lemma mapM_py_int_err l e : mapM py_int l = Err e -> e = ValueError.
Proof.
  induction l as [|h t IH]; simpl; [discriminate|].
  destruct (py_int h) eqn:E; simpl; [|intros H; injection H as <-; now apply py_int_err in E].
  destruct (mapM py_int t); simpl; [discriminate|]. auto.
Qed.

Lemma collect_err l e : collect l = Err e -> e = ValueError.
Proof.
  induction l as [|h t IH]; simpl; [discriminate|].
  destruct (re_search h); [|exact IH].
  destruct (mapM py_int _) eqn:E; simpl; [|intros H; injection H as <-; now apply mapM_py_int_err in E].
  destruct (collect t); simpl; [discriminate|]. auto.
Qed.

Lemma collect_perm l l' :
  Permutation l l' -> forall c, collect l = Ok c ->
  exists c', collect l' = Ok c' /\ Permutation c c'.
Proof.
  induction 1 as [|x l l' Hp IH|x y l|l l' l'' H1 IH1 H2 IH2]; intros c Hc.
  - exists c. auto.
  - simpl in *. destruct (re_search x) as [g|].
    + inv_bind Hc. injection Hc as <-. destruct (IH _ E0) as [c' [-> Hc']].
      rewrite E. simpl. eexists. split; [reflexivity|]. now apply perm_skip.
    + now apply IH.
  - simpl in *. destruct (re_search x) as [gx|], (re_search y) as [gy|]; simpl in *.
    + inv_bind Hc. injection Hc as <-. inv_bind E0. injection E0 as <-.
      rewrite E1, E. simpl. rewrite E2. simpl. eexists. split; [reflexivity|]. apply perm_swap.
    + inv_bind Hc. injection Hc as <-. rewrite E. simpl. rewrite E0. simpl. eauto.
    + inv_bind Hc. injection Hc as <-. rewrite E. simpl. rewrite E0. simpl. eauto.
    + eauto.
  - destruct (IH1 _ Hc) as [c' [Hc' P1]]. destruct (IH2 _ Hc') as [c'' [Hc'' P2]].
    exists c''. split; [exact Hc''|]. eapply perm_trans; eauto.
Qed.

Lemma NoDup_map_fst_inj {A B} (l : list (A * B)) p q :
  NoDup (map fst l) -> In p l -> In q l -> fst p = fst q -> p = q.
Proof.
  induction l as [|h t IH]; simpl; [tauto|]. intros Hnd Hp Hq E.
  inversion Hnd as [|? ? Hnin Hnd']; subst.
  destruct Hp as [<- | Hp], Hq as [<- | Hq]; auto.
  - exfalso. apply Hnin. rewrite E. now apply in_map.
  - exfalso. apply Hnin. rewrite <- E. now apply in_map.
Qed.

Lemma find_entry_perm (a1 a2 : archive) k :
  Permutation a1 a2 -> NoDup (map fst a1) ->
  find (fun e => ustr_eqb (fst e) k) (rev a1) = find (fun e => ustr_eqb (fst e) k) (rev a2).
Proof.
  intros Hp Hnd.
  assert (Hnd2 : NoDup (map fst a2)) by (eapply Permutation_NoDup; [apply Permutation_map; exact Hp | exact Hnd]).
  assert (Hfind : forall (a : archive) (e : ustr * option document),
            NoDup (map fst a) -> In e a -> fst e = k ->
            find (fun e => ustr_eqb (fst e) k) (rev a) = Some e).
  { intros a e Hn Hin Hk. destruct (find _ (rev a)) as [e'|] eqn:E.
    - apply find_some in E as [Hin' Hk']. apply in_rev in Hin'.
      apply ustr_eqb_spec in Hk'. f_equal. eapply NoDup_map_fst_inj; eauto. congruence.
    - exfalso. apply in_rev in Hin. pose proof (find_none _ _ E e Hin) as H.
      simpl in H. rewrite Hk in H.
      assert (ustr_eqb k k = true) by now apply ustr_eqb_spec. congruence. }
  destruct (find _ (rev a1)) as [e|] eqn:E1.
  - apply find_some in E1 as [Hin Hk]. apply in_rev in Hin. apply ustr_eqb_spec in Hk.
    symmetry. apply Hfind; auto. eapply Permutation_in; eauto.
  - destruct (find _ (rev a2)) as [e|] eqn:E2; [|reflexivity].
    apply find_some in E2 as [Hin Hk]. apply in_rev in Hin. apply ustr_eqb_spec in Hk.
    assert (Hin1 : In e a1)
      by (eapply Permutation_in; [apply Permutation_sym; exact Hp | exact Hin]).
    rewrite (Hfind a1 e Hnd Hin1 Hk) in E1. discriminate.
Qed.

Lemma main_loop_ext a1 a2 m names rows :
  (forall n, open_entry a1 n = open_entry a2 n) ->
  main_loop a1 m names rows = main_loop a2 m names rows.
Proof.
  intros H. revert m rows. induction names as [|n names IH]; intros m rows; simpl; [reflexivity|].
  rewrite H. destruct (open_entry a2 n); simpl; [|reflexivity].
  destruct (match m with Some _ => _ | None => _ end); simpl; [|reflexivity].
  destruct (doc_rows _ _); simpl; auto.
Qed.

Lemma main_loop_concat a m names acc rows :
  main_loop a (Some m) names acc = Ok rows ->
  exists per, docs_rows a m names per /\ rows = acc ++ List.concat per.
Proof.
  revert acc. induction names as [|n names IH]; intros acc H; simpl in H.
  - injection H as <-. exists []. split; [constructor | simpl; now rewrite app_nil_r].
  - inv_bind H. destruct (IH _ H) as [per [Hper ->]].
    exists (a1 :: per). split.
    + constructor; [exists a0; auto | exact Hper].
    + simpl. now rewrite app_assoc.
Qed.

(** * Claims *)

(** ** Hit selection *)

(** C2: a shot whose [shot_no] lies in [1 .. number of hit samples] yields
    exactly one row (its outcome is [Some r], never a silent drop), and the
    row's [ball_hit_*] fields are the ball position of the [shot_no]-th hit
    sample, whatever the bounce samples are. *)
Theorem shot_hit_ball m d outs i s hit :
  process_doc m d = Ok outs ->
  nth_error (d_shots d) i = Some s ->
  1 <= shot_no s <= Z.of_nat (List.length (hits_of d)) ->
  nth_error (hits_of d) (Z.to_nat (shot_no s - 1)) = Some hit ->
  exists r, nth_error outs i = Some (Some r) /\
    ball_hit_x r = x (ball hit) /\ ball_hit_y r = y (ball hit) /\
    ball_hit_z r = z (ball hit).
Proof.
  intros Hd Hs Hn Hh. unfold process_doc in Hd.
  destruct (mapM_nth _ _ _ _ _ Hd Hs) as [o [Ho Hi]].
  destruct o as [r|].
  2:{ exfalso. revert Ho. apply process_shot_not_skipped. lia. }
  exists r. split; [exact Hi|].
  apply process_shot_row in Ho as (end_t & hit' & bo & hitter & p0 & p1 & _ & _ & Hx & _ & _ & _ & _ & Hr).
  rewrite (py_index_nonneg (hits_of d) (shot_no s - 1) hit ltac:(lia) Hh) in Hx. injection Hx as <-.
  cbv zeta in Hr. subst r. simpl. auto.
Qed.

Lemma shot_hit_ball_witness :
  exists r, nth_error (ok_or [] (process_doc ex_match ex_doc)) 0 = Some (Some r) /\
    ball_hit_x r = JInt 1 /\ ball_hit_y r = JInt 2 /\ ball_hit_z r = JInt 3.
Proof.
  apply (shot_hit_ball ex_match ex_doc (ok_or [] (process_doc ex_match ex_doc))
           0 ex_shot ex_hit).
  - vm_compute. reflexivity.
  - reflexivity.
  - vm_compute. split; discriminate.
  - vm_compute. reflexivity.
Defined.

(** C3: a shot whose [shot_no] exceeds the number of hit samples gives
    [Ok None] (no row, no error), and the document yields the same rows
    (or the same error) as the document without that shot. *)
Theorem shot_beyond_hits_dropped m d l1 s l2 :
  d_shots d = l1 ++ s :: l2 ->
  Z.of_nat (List.length (hits_of d)) < shot_no s ->
  process_shot m (d_sequences d) (hits_of d) (bounces_of d) s = Ok None /\
  doc_rows m d = doc_rows m (with_shots d (l1 ++ l2)).
Proof.
  intros Hs Hn. split; [now apply process_shot_skip|].
  unfold doc_rows, process_doc.
  change (hits_of (with_shots d (l1 ++ l2))) with (hits_of d).
  change (bounces_of (with_shots d (l1 ++ l2))) with (bounces_of d).
  change (d_sequences (with_shots d (l1 ++ l2))) with (d_sequences d).
  change (d_shots (with_shots d (l1 ++ l2))) with (l1 ++ l2).
  rewrite Hs, !mapM_app.
  set (f := process_shot m (d_sequences d) (hits_of d) (bounces_of d)).
  assert (Hf : f s = Ok None) by now apply process_shot_skip.
  simpl. rewrite Hf. simpl.
  destruct (mapM f l1) as [o1|e]; simpl; [|reflexivity].
  destruct (mapM f l2) as [o2|e]; simpl; [|reflexivity].
  now rewrite !emitted_app.
Qed.

Definition ex_doc_extra_shot : document :=
  with_shots ex_doc [ex_shot; with_shot_no ex_shot 5; ex_shot].

Lemma shot_beyond_hits_dropped_witness :
  process_shot ex_match ex_seq [ex_hit] [ex_bounce] (with_shot_no ex_shot 5) = Ok None /\
  doc_rows ex_match ex_doc_extra_shot
  = doc_rows ex_match (with_shots ex_doc_extra_shot [ex_shot; ex_shot]).
Proof.
  apply (shot_beyond_hits_dropped ex_match ex_doc_extra_shot [ex_shot]
           (with_shot_no ex_shot 5) [ex_shot]).
  - reflexivity.
  - vm_compute. reflexivity.
Defined.

(** ** Bounce selection *)

(** C4 (as the code has it): the bounce of a row is the first bounce
    sample, in sample order, that passes the script's test
    [hit.time < t < hit.time + duration] ([in_window] is [Ok true]); every
    earlier bounce fails it ([Ok false]).  When none passes it, the row's
    [ball_bounce_x] and [ball_bounce_y] are the empty string.  The test is
    evaluated as Python does: the comparisons are exact, but
    [hit.time + duration] is rounded to a double as soon as one operand is
    a float.  When the hit time and the duration are both [int]s, the test
    never fails and is the exact inequality on the bounce time. *)
Theorem bounce_choice m sq hits bounces s r hit :
  process_shot m sq hits bounces s = Ok (Some r) ->
  py_index hits (shot_no s - 1) = Ok hit ->
  ((exists i b, nth_error bounces i = Some b /\
      in_window hit (duration s) b = Ok true /\
      (forall j b', (j < i)%nat -> nth_error bounces j = Some b' ->
         in_window hit (duration s) b' = Ok false) /\
      ball_bounce_x r = x (ball b) /\ ball_bounce_y r = y (ball b))
   \/
   ((forall b, In b bounces -> in_window hit (duration s) b = Ok false) /\
    ball_bounce_x r = JStr [] /\ ball_bounce_y r = JStr [])) /\
  (forall h k, time hit = NInt h -> duration s = NInt k -> forall b,
     exists v, in_window hit (duration s) b = Ok v /\
       (v = true <-> exists q, num_ext (time b) = Fin q /\
                              (inject_Z h < q < inject_Z (h + k))%Q)).
Proof.
  intros H Hh. split.
  - apply process_shot_row in H
      as (end_t & hit' & bo & hitter & p0 & p1 & _ & _ & Hx & Hb & _ & _ & _ & Hr).
    rewrite Hh in Hx. injection Hx as <-. cbv zeta in Hr. subst r. simpl.
    destruct bo as [b|].
    + left. destruct (find_res_first _ _ _ Hb) as [i [Hi [Hw Hbefore]]].
      exists i, b. repeat split; auto.
    + right. repeat split; auto. now apply find_res_none.
  - intros h k Hth Hk b. unfold in_window. rewrite Hth, Hk.
    unfold py_lt at 1. cbn [num_ext].
    destruct (num_ext (time b)) as [q| [|] |] eqn:Eb.
    + destruct (qltb (inject_Z h) q) eqn:E1; cbn [py_add res_bind].
      * eexists. split; [reflexivity|]. unfold py_lt. cbn [num_ext]. rewrite Eb.
        rewrite qltb_spec. apply qltb_spec in E1. split.
        -- intros E2. exists q. auto.
        -- intros (q' & Hq' & _ & E2). injection Hq' as <-. exact E2.
      * eexists. split; [reflexivity|]. split; [discriminate|].
        intros (q' & Hq' & E2 & _). injection Hq' as <-.
        apply qltb_spec in E2. congruence.
    + eexists. split; [reflexivity|]. split; [discriminate|].
      intros (q' & Hq' & _). discriminate.
    + cbn [py_add res_bind]. eexists. split; [reflexivity|].
      unfold py_lt. cbn [num_ext]. rewrite Eb. split; [discriminate|].
      intros (q' & Hq' & _). discriminate.
    + eexists. split; [reflexivity|]. split; [discriminate|].
      intros (q' & Hq' & _). discriminate.
Qed.

Lemma bounce_choice_witness :
  let r := row_of (process_shot ex_match ex_seq [ex_hit] [ex_bounce] ex_shot) in
  ((exists i b, nth_error [ex_bounce] i = Some b /\
      in_window ex_hit (duration ex_shot) b = Ok true /\
      (forall j b', (j < i)%nat -> nth_error [ex_bounce] j = Some b' ->
         in_window ex_hit (duration ex_shot) b' = Ok false) /\
      ball_bounce_x r = x (ball b) /\ ball_bounce_y r = y (ball b))
   \/
   ((forall b, In b [ex_bounce] -> in_window ex_hit (duration ex_shot) b = Ok false) /\
    ball_bounce_x r = JStr [] /\ ball_bounce_y r = JStr [])) /\
  (forall h k, time ex_hit = NInt h -> duration ex_shot = NInt k -> forall b,
     exists v, in_window ex_hit (duration ex_shot) b = Ok v /\
       (v = true <-> exists q, num_ext (time b) = Fin q /\
                              (inject_Z h < q < inject_Z (h + k))%Q)).
Proof.
  intros r. apply (bounce_choice ex_match ex_seq [ex_hit] [ex_bounce] ex_shot r ex_hit).
  - vm_compute. reflexivity.
  - vm_compute. reflexivity.
Defined.

(** A hit at 0.1 s, a shot lasting 0.7 s and a bounce at the double just
    below 0.8 ([0.7999999999999999]). *)
Definition fl_hit : sample :=
  mk_sample (Some (u "hit")) (dbl 3602879701896397 (-55))
            (mk_ball (JInt 1) (JInt 2) (JInt 3)) [pos_B; pos_A].

Definition fl_bounce : sample :=
  mk_sample (Some (u "bounce")) (dbl 7205759403792793 (-53))
            (mk_ball (JInt 4) (JInt 5) (JInt 0)) [].

Definition fl_shot : shot :=
  mk_shot 1 (u "A") (u "2023-01-01T00:00:00.000000Z") (dbl 3152519739159347 (-52))
          (JStr (u "forehand")) (mk_spin (JStr (u "topspin")) (JInt 2000))
          (JStr (u "in")).

(** C4, counterexample: the values of the hit time [h], the bounce time [t]
    and the duration [d] satisfy [h < t < h + d] exactly, but in Python
    [0.1 + 0.7] is [0.7999999999999999], which is [t]; so the bounce is not
    taken and the row's bounce fields are empty. *)
Lemma float_sum_closes_window :
  let r := row_of (process_shot ex_match ex_seq [fl_hit] [fl_bounce] fl_shot) in
  (exists h t d, num_ext (time fl_hit) = Fin h /\ num_ext (time fl_bounce) = Fin t /\
     num_ext (duration fl_shot) = Fin d /\ (h < t < h + d)%Q) /\
  process_shot ex_match ex_seq [fl_hit] [fl_bounce] fl_shot = Ok (Some r) /\
  ball_bounce_x r = JStr [] /\ ball_bounce_y r = JStr [].
Proof.
  intros r. split.
  - do 3 eexists. split; [vm_compute; reflexivity|]. split; [vm_compute; reflexivity|].
    split; [vm_compute; reflexivity|]. split; vm_compute; reflexivity.
  - vm_compute. repeat split.
Qed.

(** ** Hitter and receiver *)

(** C5: the hit sample's player positions are reordered by a stable
    partition: the entries of the hitting team first, the others after,
    each group in input order.  So when the two listed entries are, in
    either order, one entry [p] of the hitting team and one entry [q] of
    another team, [p] gives [hitter_x]/[hitter_y] and [q] gives
    [receiver_x]/[receiver_y]. *)
Theorem hitter_receiver_order m sq hits bounces s r hit :
  process_shot m sq hits bounces s = Ok (Some r) ->
  py_index hits (shot_no s - 1) = Ok hit ->
  sort_by (team_first (team s)) (players hit)
    = filter (fun p => ustr_eqb (pp_team p) (team s)) (players hit)
      ++ filter (fun p => negb (ustr_eqb (pp_team p) (team s))) (players hit) /\
  (forall p q, Permutation (players hit) [p; q] ->
     pp_team p = team s -> pp_team q <> team s ->
     hitter_x r = pos_x (pp_pos p) /\ hitter_y r = pos_y (pp_pos p) /\
     receiver_x r = pos_x (pp_pos q) /\ receiver_y r = pos_y (pp_pos q)).
Proof.
  intros H Hh. split; [apply sort_team_first|].
  intros p q Hperm Hp Hq.
  apply process_shot_row in H as (end_t & hit' & bo & hitter & p0 & p1 & _ & _ & Hx & _ & _ & H0 & H1 & Hr).
  rewrite Hh in Hx. injection Hx as <-. cbv zeta in Hr. subst r. simpl.
  assert (Hs : sort_by (team_first (team s)) (players hit) = [p; q]).
  { rewrite sort_team_first.
    assert (Ep : ustr_eqb (pp_team p) (team s) = true) by now apply ustr_eqb_spec.
    assert (Eq : ustr_eqb (pp_team q) (team s) = false).
    { destruct (ustr_eqb (pp_team q) (team s)) eqn:E; [|reflexivity].
      apply ustr_eqb_spec in E. contradiction. }
    apply Permutation_sym, Permutation_length_2_inv in Hperm as [-> | ->]; simpl;
      rewrite Ep, Eq; reflexivity. }
  rewrite Hs in H0, H1. vm_compute in H0, H1.
  injection H0 as <-. injection H1 as <-. auto.
Qed.

Lemma hitter_receiver_order_witness :
  let r := row_of (process_shot ex_match ex_seq [ex_hit] [ex_bounce] ex_shot) in
  sort_by (team_first (team ex_shot)) (players ex_hit)
    = filter (fun p => ustr_eqb (pp_team p) (team ex_shot)) (players ex_hit)
      ++ filter (fun p => negb (ustr_eqb (pp_team p) (team ex_shot))) (players ex_hit) /\
  (forall p q, Permutation (players ex_hit) [p; q] ->
     pp_team p = team ex_shot -> pp_team q <> team ex_shot ->
     hitter_x r = pos_x (pp_pos p) /\ hitter_y r = pos_y (pp_pos p) /\
     receiver_x r = pos_x (pp_pos q) /\ receiver_y r = pos_y (pp_pos q)).
Proof.
  intros r. apply (hitter_receiver_order ex_match ex_seq [ex_hit] [ex_bounce] ex_shot r ex_hit).
  - vm_compute. reflexivity.
  - vm_compute. reflexivity.
Defined.

(** ** Timestamps *)

(** C6: [shot_start_timestamp] is the raw [time_utc] string;
    [shot_end_timestamp] is [time_utc] parsed with
    ["%Y-%m-%dT%H:%M:%S.%fZ"], moved by [duration] seconds
    ([timedelta(seconds=duration)]) and rendered by [isoformat] with a
    literal ["Z"] appended.  The parsed datetime is naive, so the rendering
    carries no offset (no ["+"]); in the round-trip scenario (duration the
    [int] 1) the end timestamp is ["2023-01-01T00:00:01Z"]. *)
Theorem shot_timestamps m sq hits bounces s r :
  process_shot m sq hits bounces s = Ok (Some r) ->
  shot_start_timestamp r = JStr (time_utc s) /\
  (exists start e,
     strptime (time_utc s) = Ok start /\ add_seconds start (duration s) = Ok e /\
     shot_end_timestamp r = JStr (isoformat e ++ u "Z") /\
     ~ In 43 (isoformat e ++ u "Z")) /\
  end_time (u "2023-01-01T00:00:00.000000Z") (NInt 1) = Ok (u "2023-01-01T00:00:01Z").
Proof.
  intros H.
  apply process_shot_row in H as (end_t & hit & bo & hitter & p0 & p1 & _ & He & _ & _ & _ & _ & _ & Hr).
  cbv zeta in Hr. subst r. simpl. split; [reflexivity|]. split; [|vm_compute; reflexivity].
  unfold end_time in He. inv_bind He. injection He as <-.
  exists a, a0. repeat split; auto. apply isoformat_no_plus.
Qed.

Lemma shot_timestamps_witness :
  let r := row_of (process_shot ex_match ex_seq [ex_hit] [ex_bounce] ex_shot) in
  shot_start_timestamp r = JStr (time_utc ex_shot) /\
  (exists start e,
     strptime (time_utc ex_shot) = Ok start /\
     add_seconds start (duration ex_shot) = Ok e /\
     shot_end_timestamp r = JStr (isoformat e ++ u "Z") /\
     ~ In 43 (isoformat e ++ u "Z")) /\
  end_time (u "2023-01-01T00:00:00.000000Z") (NInt 1) = Ok (u "2023-01-01T00:00:01Z").
Proof.
  intros r. apply (shot_timestamps ex_match ex_seq [ex_hit] [ex_bounce] ex_shot r).
  vm_compute. reflexivity.
Defined.

(** ** Shot numbers of zero and below *)

(** C9 (as the code has it): a shot with [-(number of hits) < shot_no <= 0]
    passes the guard and is not dropped; a row it yields takes the hit
    [hits[len(hits) + shot_no - 1]] (so [shot_no = 0] takes the last hit).
    A shot with [shot_no <= -(number of hits)] passes the guard too, but
    never yields a value: the run stops with an error. *)
Theorem nonpositive_shot_no m sq hits bounces s :
  shot_no s <= 0 ->
  (- Z.of_nat (List.length hits) < shot_no s ->
     process_shot m sq hits bounces s <> Ok None /\
     forall r, process_shot m sq hits bounces s = Ok (Some r) ->
       exists hit,
         nth_error hits (Z.to_nat (Z.of_nat (List.length hits) + shot_no s - 1))
           = Some hit /\
         ball_hit_x r = x (ball hit) /\ ball_hit_y r = y (ball hit) /\
         ball_hit_z r = z (ball hit)) /\
  (shot_no s <= - Z.of_nat (List.length hits) ->
     forall o, process_shot m sq hits bounces s <> Ok o).
Proof.
  intros Hn. split.
  - intros Hlo. split; [apply process_shot_not_skipped; lia|].
    intros r H.
    apply process_shot_row in H as (end_t & hit & bo & hitter & p0 & p1 & _ & _ & Hx & _ & _ & _ & _ & Hr).
    exists hit. apply py_index_spec in Hx as [_ Hx].
    replace (shot_no s - 1 <? 0) with true in Hx by (symmetry; apply Z.ltb_lt; lia).
    replace (Z.of_nat (List.length hits) + shot_no s - 1)
      with (shot_no s - 1 + Z.of_nat (List.length hits)) by lia.
    split; [exact Hx|]. cbv zeta in Hr. subst r. simpl. auto.
  - intros Hhi [r|] H.
    + apply process_shot_row in H as (end_t & hit & bo & hitter & p0 & p1 & _ & _ & Hx & _ & _).
      apply py_index_length in Hx. lia.
    + revert H. apply process_shot_not_skipped. lia.
Qed.

Lemma nonpositive_shot_no_witness :
  let s := with_shot_no ex_shot 0 in
  (- Z.of_nat (List.length [ex_hit]) < shot_no s ->
     process_shot ex_match ex_seq [ex_hit] [ex_bounce] s <> Ok None /\
     forall r, process_shot ex_match ex_seq [ex_hit] [ex_bounce] s = Ok (Some r) ->
       exists hit,
         nth_error [ex_hit] (Z.to_nat (Z.of_nat (List.length [ex_hit]) + shot_no s - 1))
           = Some hit /\
         ball_hit_x r = x (ball hit) /\ ball_hit_y r = y (ball hit) /\
         ball_hit_z r = z (ball hit)) /\
  (shot_no s <= - Z.of_nat (List.length [ex_hit]) ->
     forall o, process_shot ex_match ex_seq [ex_hit] [ex_bounce] s <> Ok o).
Proof.
  intros s. apply (nonpositive_shot_no ex_match ex_seq [ex_hit] [ex_bounce] s).
  vm_compute. discriminate.
Defined.

(** C9, counterexample: with one hit sample, [shot_no = -1] (which is
    [-(number of hits)]) does not give a row: [hits[-2]] raises
    [IndexError] and the run stops. *)
Lemma shot_no_minus_hit_count_fails :
  process_all [(u "data/1.json", Some (with_shots ex_doc [with_shot_no ex_shot (-1)]))]
  = Err IndexError.
Proof. vm_compute. reflexivity. Qed.

(** ** Player positions *)

(** C10: a row is only built when the selected hit sample lists at least
    two player positions.  With fewer, the shot ends in an error; it is the
    [IndexError] of reading the receiver (or hitter) position once the
    end timestamp, the bounce search and the roster lookup have gone
    through.  With two or more, that [IndexError] cannot happen. *)
Theorem positions_need_two m sq hits bounces s hit :
  py_index hits (shot_no s - 1) = Ok hit ->
  (forall r, process_shot m sq hits bounces s = Ok (Some r) ->
     (2 <= List.length (players hit))%nat) /\
  ((List.length (players hit) < 2)%nat ->
     exists e, process_shot m sq hits bounces s = Err e) /\
  ((List.length (players hit) < 2)%nat -> forall end_t bo hitter,
     end_time (time_utc s) (duration s) = Ok end_t ->
     find_res (in_window hit (duration s)) bounces = Ok bo ->
     players_lookup (m_players m) (team s) = Ok hitter ->
     process_shot m sq hits bounces s = Err IndexError) /\
  ((2 <= List.length (players hit))%nat ->
     process_shot m sq hits bounces s <> Err IndexError).
Proof.
  intros Hh. pose proof (py_index_length _ _ _ Hh) as Hb.
  assert (Hrow : forall r, process_shot m sq hits bounces s = Ok (Some r) ->
                 (2 <= List.length (players hit))%nat).
  { intros r H.
    apply process_shot_row in H as (end_t & hit' & bo & hitter & p0 & p1 & _ & _ & Hx & _ & _ & _ & H1 & _).
    rewrite Hh in Hx. injection Hx as <-.
    apply py_index_length in H1. rewrite length_sort_by in H1. lia. }
  assert (Hguard : (Z.of_nat (List.length hits) <? shot_no s) = false)
    by (apply Z.ltb_ge; lia).
  split; [exact Hrow|]. split; [|split].
  - intros Hlt. destruct (process_shot m sq hits bounces s) as [[r|]|e] eqn:E; eauto.
    + specialize (Hrow r eq_refl). lia.
    + exfalso. revert E. apply process_shot_not_skipped. lia.
  - intros Hlt end_t bo hitter He Hbo Hp. unfold process_shot. cbv zeta.
    rewrite Hguard, He. cbn [res_bind]. rewrite Hh. cbn [res_bind].
    rewrite Hbo. cbn [res_bind]. rewrite Hp. cbn [res_bind].
    rewrite (py_index_out_of_range _ 1)
      by (rewrite length_sort_by; lia).
    destruct (py_index _ 0) eqn:E0; [reflexivity|].
    cbn [res_bind]. now apply py_index_err in E0 as ->.
  - intros Hge. unfold process_shot. cbv zeta. rewrite Hguard.
    destruct (end_time (time_utc s) (duration s)) eqn:He; cbn [res_bind].
    2:{ apply end_time_err in He. destruct He as [-> | ->]; discriminate. }
    rewrite Hh. cbn [res_bind].
    destruct (find_res (in_window hit (duration s)) bounces) eqn:Hbo; cbn [res_bind].
    2:{ apply find_res_window_err in Hbo as ->. discriminate. }
    destruct (players_lookup (m_players m) (team s)) eqn:Hp; cbn [res_bind].
    2:{ apply players_lookup_err in Hp as ->. discriminate. }
    destruct (py_index_in_range (sort_by (team_first (team s)) (players hit)) 0)
      as [p0 E0]; [rewrite length_sort_by; lia|].
    destruct (py_index_in_range (sort_by (team_first (team s)) (players hit)) 1)
      as [p1 E1]; [rewrite length_sort_by; lia|].
    rewrite E0, E1. discriminate.
Qed.

Definition ex_hit_alone : sample :=
  mk_sample (Some (u "hit")) (NInt 10) (mk_ball (JInt 1) (JInt 2) (JInt 3)) [pos_A].

Lemma positions_need_two_witness :
  (forall r, process_shot ex_match ex_seq [ex_hit_alone] [] ex_shot = Ok (Some r) ->
     (2 <= List.length (players ex_hit_alone))%nat) /\
  ((List.length (players ex_hit_alone) < 2)%nat ->
     exists e, process_shot ex_match ex_seq [ex_hit_alone] [] ex_shot = Err e) /\
  ((List.length (players ex_hit_alone) < 2)%nat -> forall end_t bo hitter,
     end_time (time_utc ex_shot) (duration ex_shot) = Ok end_t ->
     find_res (in_window ex_hit_alone (duration ex_shot)) [] = Ok bo ->
     players_lookup (m_players ex_match) (team ex_shot) = Ok hitter ->
     process_shot ex_match ex_seq [ex_hit_alone] [] ex_shot = Err IndexError) /\
  ((2 <= List.length (players ex_hit_alone))%nat ->
     process_shot ex_match ex_seq [ex_hit_alone] [] ex_shot <> Err IndexError).
Proof.
  apply (positions_need_two ex_match ex_seq [ex_hit_alone] [] ex_shot ex_hit_alone).
  vm_compute. reflexivity.
Defined.

(** ** Failing runs and the output file *)

(** C7 (as the code has it): with no rows at all the run fails on
    [rows[0]] after [result.csv] has been opened for writing, so the file
    is left empty (created, or truncated).  A failure before that point
    leaves [result.csv] as it was.  A failure while the rows are written
    (an [UnicodeEncodeError]) leaves the header and the rows before the
    failing one in the file. *)
Theorem failing_runs a file :
  (process_all a = Ok [] -> run a file = (Err IndexError, Some [])) /\
  (forall e, process_all a = Err e -> run a file = (Err e, file)) /\
  (forall rows e content,
     process_all a = Ok rows -> rows <> [] ->
     run a file = (Err e, Some content) ->
     e = UnicodeEncodeError /\
     exists k, (k < List.length rows)%nat /\
       content = csv_line header_fields ++ List.concat (map csv_row (firstn k rows))).
Proof.
  unfold run. split; [|split].
  - intros H. now rewrite H.
  - intros e H. now rewrite H.
  - intros rows e content H Hne Hrun. rewrite H in Hrun.
    destruct rows as [|r0 rest]; [contradiction|].
    unfold write_csv in Hrun. rewrite row_items_keys in Hrun.
    change (write_text [] (csv_line header_fields)) with (Ok (csv_line header_fields) : result ustr) in Hrun.
    destruct (write_rows (csv_line header_fields) header_fields (r0 :: rest)) as [res c] eqn:Ew.
    injection Hrun as -> <-.
    exact (write_rows_failure _ _ _ _ _ Ew).
Qed.

Lemma failing_runs_witness :
  (process_all [] = Ok [] -> run [] None = (Err IndexError, Some [])) /\
  (forall e, process_all [] = Err e -> run [] None = (Err e, None)) /\
  (forall rows e content,
     process_all [] = Ok rows -> rows <> [] ->
     run [] None = (Err e, Some content) ->
     e = UnicodeEncodeError /\
     exists k, (k < List.length rows)%nat /\
       content = csv_line header_fields ++ List.concat (map csv_row (firstn k rows))).
Proof. apply (failing_runs [] None). Defined.

Definition ex_doc_bad_call : document :=
  with_shots ex_doc [ex_shot; with_call ex_shot (JStr [55296])].

(** C7, counterexample: a [call] holding a lone surrogate in the second
    row makes the run fail with [UnicodeEncodeError] after the header and
    the first row have gone to [result.csv]. *)
Lemma partial_output_on_write_failure :
  let res := run [(u "data/1.json", Some ex_doc_bad_call)] None in
  fst res = Err UnicodeEncodeError /\
  snd res = Some (csv_line header_fields ++
                  csv_row (row_of (process_shot ex_match ex_seq [ex_hit] [ex_bounce] ex_shot))) /\
  snd res <> Some [].
Proof. vm_compute. split; [reflexivity|]. split; [reflexivity | discriminate]. Qed.

Definition with_team (s : shot) (t : ustr) : shot :=
  mk_shot (shot_no s) t (time_utc s) (duration s) (sh_stroke s) (sh_spin s) (sh_call s).

(** C10, counterexample: the hit sample lists one player position, but the
    shot's team ["C"] is not in the roster; the row dict reads
    [players[shot["team"]]] before the positions, so the error is a
    [KeyError], not an out-of-range index. *)
Lemma single_position_unknown_team :
  process_shot ex_match ex_seq [ex_hit_alone] [] (with_team ex_shot (u "C"))
  = Err KeyError.
Proof. vm_compute. reflexivity. Qed.

(** ** Document order *)

(** C1 (as the code has it): the matching entries are sorted by the
    integer tuple of their names with a stable sort: the keys never
    decrease along the order, and entries of equal key keep their archive
    order.  The rows are, in order, the rows of each document read in that
    order, all built with the [match] object of the first one.  When the
    tuples are pairwise distinct the order is strictly ascending; when
    moreover the entry names are unique, the rows, the output and the
    outcome of the run do not depend on the order of the entries in the
    archive. *)
Theorem files_order a c :
  collect (map fst a) = Ok c ->
  sort_files (map fst a) = Ok (map snd (sort_by key_lt c)) /\
  Sorted (not_after key_lt) (sort_by key_lt c) /\
  (forall k, filter (key_eqb k) (sort_by key_lt c) = filter (key_eqb k) c) /\
  (forall rows, process_all a = Ok rows ->
     exists m per, docs_rows a m (map snd (sort_by key_lt c)) per /\
       rows = List.concat per /\
       (forall n0 ns, map snd (sort_by key_lt c) = n0 :: ns ->
          exists d0, open_entry a n0 = Ok d0 /\ d_match d0 = Some m)) /\
  (NoDup (map fst c) ->
     StronglySorted (fun p q => key_lt p q = true) (sort_by key_lt c)) /\
  (forall a2 file, Permutation a a2 -> NoDup (map fst a) -> NoDup (map fst c) ->
     process_all a = process_all a2 /\ run a file = run a2 file).
Proof.
  intros Hc.
  assert (Hsf : sort_files (map fst a) = Ok (map snd (sort_by key_lt c)))
    by (unfold sort_files; now rewrite Hc).
  split; [exact Hsf|].
  split; [apply sort_by_sorted, key_lt_asym|].
  split; [intros k; apply sort_by_key_filter|].
  split; [|split; [apply sort_files_strict|]].
  - intros rows H. unfold process_all in H. rewrite Hsf in H. cbn [res_bind] in H.
    remember (map snd (sort_by key_lt c)) as names eqn:En. clear En.
    destruct names as [|n0 ns].
    + cbn [main_loop] in H. injection H as <-.
      exists ex_match, []. split; [constructor|]. split; [reflexivity|].
      intros n0 ns Heq. discriminate.
    + cbn [main_loop] in H.
      destruct (open_entry a n0) as [d0|e] eqn:Eo; cbn [res_bind] in H; [|discriminate].
      destruct (d_match d0) as [m0|] eqn:Em; cbn [res_bind] in H; [|discriminate].
      destruct (doc_rows m0 d0) as [rs0|e] eqn:Ed; cbn [res_bind] in H; [|discriminate].
      destruct (main_loop_concat _ _ _ _ _ H) as [per [Hper ->]].
      exists m0, (rs0 :: per). split; [constructor; [exists d0; auto | exact Hper]|].
      split; [reflexivity|].
      intros n0' ns' Heq. injection Heq as <- <-. eauto.
  - intros a2 file Hp Hnd Hndc.
    destruct (collect_perm _ _ (Permutation_map fst Hp) _ Hc) as [c' [Hc' Pc]].
    assert (Hsort : sort_by key_lt c = sort_by key_lt c').
    { apply (strongly_sorted_unique (fun p q => key_lt p q = true)).
      - intros p q H1 H2. rewrite (key_lt_asym _ _ H1) in H2. discriminate.
      - now apply sort_files_strict.
      - apply sort_files_strict.
        eapply Permutation_NoDup; [apply Permutation_map; exact Pc | exact Hndc].
      - eapply perm_trans; [apply Permutation_sym, sort_by_perm|].
        eapply perm_trans; [exact Pc|]. apply sort_by_perm. }
    assert (Hpa : process_all a = process_all a2).
    { unfold process_all, sort_files. rewrite Hc, Hc'. cbn [res_bind].
      rewrite Hsort. apply main_loop_ext. intros n. unfold open_entry.
      now rewrite (find_entry_perm a a2 _ Hp Hnd). }
    split; [exact Hpa|]. unfold run. now rewrite Hpa.
Qed.

Definition ex_doc_set2 : document :=
  mk_document (Some ex_match) (mk_sequences (JInt 2) (JInt 2) (JInt 3) (JInt 1) (JInt 4))
              [ex_hit; ex_bounce] [ex_shot].

(** The multi-file scenario: [data/2_0.json] is listed before
    [data/1_0.json]. *)
Definition two_file_archive : archive :=
  [(u "data/2_0.json", Some ex_doc_set2); (u "data/1_0.json", Some ex_doc)].

Definition tie_archive : archive :=
  [(u "data/1.json", Some ex_doc); (u "data/01.json", Some ex_doc_set2)].

Lemma files_order_witness :
  let c := ok_or [] (collect (map fst tie_archive)) in
  sort_files (map fst tie_archive) = Ok (map snd (sort_by key_lt c)) /\
  Sorted (not_after key_lt) (sort_by key_lt c) /\
  (forall k, filter (key_eqb k) (sort_by key_lt c) = filter (key_eqb k) c) /\
  (forall rows, process_all tie_archive = Ok rows ->
     exists m per, docs_rows tie_archive m (map snd (sort_by key_lt c)) per /\
       rows = List.concat per /\
       (forall n0 ns, map snd (sort_by key_lt c) = n0 :: ns ->
          exists d0, open_entry tie_archive n0 = Ok d0 /\ d_match d0 = Some m)) /\
  (NoDup (map fst c) ->
     StronglySorted (fun p q => key_lt p q = true) (sort_by key_lt c)) /\
  (forall a2 file, Permutation tie_archive a2 -> NoDup (map fst tie_archive) ->
     NoDup (map fst c) ->
     process_all tie_archive = process_all a2 /\ run tie_archive file = run a2 file).
Proof.
  intros c. apply (files_order tie_archive c). vm_compute. reflexivity.
Defined.

(** C1, counterexample: [data/1.json] and [data/01.json] both have the key
    [[1]]; the stable sort keeps their archive order, so listing them the
    other way round changes the order of the rows in [result.csv]. *)
Lemma equal_keys_follow_archive_order :
  sort_files (map fst tie_archive) = Ok [u "1"; u "01"] /\
  sort_files (map fst (rev tie_archive)) = Ok [u "01"; u "1"] /\
  run tie_archive None <> run (rev tie_archive) None.
Proof.
  vm_compute. split; [reflexivity|]. split; [reflexivity|]. discriminate.
Qed.

(** ** Entries outside the naming pattern *)

Definition bak_archive : archive := ex_archive ++ [(u "data/1.json.bak", None)].
Definition stray_archive : archive := ex_archive ++ [(u "old/data/2.json", Some ex_doc)].

(** C8, evaluation at the failing input: [re.search] is not anchored, so
    [data/1.json.bak] matches with group ["1"] and [data/1.json] is read
    and processed a second time (its rows appear twice); an entry
    [old/data/2.json] makes the script open [data/2.json], which is not in
    the archive, and the run stops with a [KeyError]. *)
Lemma non_matching_entries_read :
  let r := row_of (process_shot ex_match ex_seq [ex_hit] [ex_bounce] ex_shot) in
  re_search (u "data/1.json.bak") = Some (u "1") /\
  process_all ex_archive = Ok [r] /\
  process_all bak_archive = Ok [r; r] /\
  process_all stray_archive = Err KeyError.
Proof. vm_compute. repeat split. Qed.

(** * Further properties of [transformer.py] *)

(** ** [sort_files] *)

(** The groups [re.search] extracts, in archive order. *)
Definition matched_names (file_list : list ustr) : list ustr :=
  flat_map (fun n => match re_search n with Some g => [g] | None => [] end) file_list.

Lemma collect_names l c : collect l = Ok c -> map snd c = matched_names l.
Proof.
  revert c. induction l as [|n l IH]; intros c H; simpl in *.
  - now injection H as <-.
  - destruct (re_search n) as [g|]; [|now apply IH].
    inv_bind H. injection H as <-. simpl. f_equal. now apply IH.
Qed.

(** [sort_files] returns every group the pattern extracts, each once, and
    orders them by non-decreasing integer-tuple key. *)
Theorem sort_files_spec file_list out :
  sort_files file_list = Ok out ->
  Permutation out (matched_names file_list) /\
  exists c, collect file_list = Ok c /\ out = map snd (sort_by key_lt c) /\
    Sorted (not_after key_lt) (sort_by key_lt c).
Proof.
  unfold sort_files. intros H. inv_bind H. injection H as <-.
  split.
  - rewrite <- (collect_names _ _ E). apply Permutation_map.
    apply Permutation_sym, sort_by_perm.
  - exists a. repeat split; auto. apply sort_by_sorted, key_lt_asym.
Qed.

Lemma sort_files_spec_witness :
  Permutation [u "1_0"; u "2_0"] (matched_names (map fst two_file_archive)) /\
  exists c, collect (map fst two_file_archive) = Ok c /\
    [u "1_0"; u "2_0"] = map snd (sort_by key_lt c) /\
    Sorted (not_after key_lt) (sort_by key_lt c).
Proof. apply sort_files_spec. vm_compute. reflexivity. Defined.

Lemma collect_err_source l e :
  collect l = Err e ->
  exists n g, In n l /\ re_search n = Some g /\
    mapM py_int (split_on underscore g) = Err ValueError.
Proof.
  revert e. induction l as [|n l IH]; intros e E; simpl in E; [discriminate|].
  destruct (re_search n) as [g|] eqn:Eg.
  - destruct (mapM py_int (split_on underscore g)) eqn:Em; simpl in E.
    + destruct (collect l) eqn:Ec; simpl in E; [discriminate|].
      destruct (IH _ eq_refl) as (n' & g' & Hin & H1 & H2). exists n', g'. simpl; auto.
    + exists n, g. repeat split; [now left | exact Eg |].
      rewrite Em. f_equal. now apply mapM_py_int_err in Em.
  - destruct (IH _ E) as (n' & g' & Hin & H1 & H2). exists n', g'. simpl; auto.
Qed.

(** [sort_files] fails only with a [ValueError], and only because some name
    the pattern matches has a segment that is not an integer. *)
Theorem sort_files_error file_list e :
  sort_files file_list = Err e ->
  e = ValueError /\
  exists n g, In n file_list /\ re_search n = Some g /\
    mapM py_int (split_on underscore g) = Err ValueError.
Proof.
  unfold sort_files. destruct (collect file_list) eqn:E; simpl; [discriminate|].
  intros H. injection H as H. subst. split.
  - now apply collect_err in E.
  - now apply collect_err_source in E.
Qed.

Lemma sort_files_error_witness :
  ValueError = ValueError /\
  exists n g, In n [u "data/1_x.json"] /\ re_search n = Some g /\
    mapM py_int (split_on underscore g) = Err ValueError.
Proof. apply sort_files_error. vm_compute. reflexivity. Defined.

(** ** The file name pattern *)

Lemma lazy_group_name acc t :
  ~ In 46 t -> ~ In newline t ->
  lazy_group acc (t ++ u ".json") = Some (acc ++ t).
Proof.
  revert acc. induction t as [|c t IH]; intros acc Hd Hn.
  - simpl. now rewrite app_nil_r.
  - simpl in Hd, Hn. cbn [app lazy_group].
    replace (is_prefix (u ".json") (c :: t ++ u ".json")) with false
      by (change (u ".json") with [46; 106; 115; 111; 110]; cbn [is_prefix];
          destruct (Z.eqb_spec 46 c); [subst; tauto | reflexivity]).
    replace (c =? newline) with false
      by (symmetry; apply Z.eqb_neq; unfold newline in *; intuition).
    rewrite IH by tauto. now rewrite <- app_assoc.
Qed.

(** An entry named [data/<g>.json], with [g] non-empty and free of ["."]
    and newlines, yields the group [g]; so the name [files_content]
    rebuilds from it, [data/{g}.json], is the entry's own name. *)
Theorem data_name_roundtrip g :
  g <> [] -> ~ In 46 g -> ~ In newline g ->
  re_search (u "data/" ++ g ++ u ".json") = Some g.
Proof.
  intros Hne Hd Hn.
  destruct g as [|c t]; [contradiction|].
  simpl in Hd, Hn. unfold re_search, match_at. simpl.
  replace (c =? newline) with false
    by (symmetry; apply Z.eqb_neq; unfold newline in *; intuition).
  rewrite lazy_group_name by tauto. reflexivity.
Qed.

Lemma data_name_roundtrip_witness :
  re_search (u "data/" ++ u "1_2" ++ u ".json") = Some (u "1_2").
Proof.
  apply data_name_roundtrip.
  - discriminate.
  - vm_compute. intuition discriminate.
  - vm_compute. intuition discriminate.
Defined.

(** ** The main loop *)

Lemma collect_no_match l : matched_names l = [] -> collect l = Ok [].
Proof.
  induction l as [|n l IH]; simpl; [reflexivity|].
  destruct (re_search n); [discriminate | exact IH].
Qed.

(** An archive none of whose entry names the pattern matches produces no
    row; [rows[0]] then fails with an [IndexError] once [result.csv] has
    been opened, so the file is left empty. *)
Theorem no_matching_entry a file :
  matched_names (map fst a) = [] ->
  run a file = (Err IndexError, Some []).
Proof.
  intros H. unfold run, process_all, sort_files.
  rewrite (collect_no_match _ H). reflexivity.
Qed.

Lemma no_matching_entry_witness :
  matched_names (map fst [(u "manifest.json", @None document)]) = [] /\
  run [(u "manifest.json", None)] (Some (u "old")) = (Err IndexError, Some []).
Proof.
  split; [vm_compute; reflexivity|].
  apply no_matching_entry. vm_compute. reflexivity.
Defined.

Definition ex_doc_no_match : document :=
  mk_document None ex_seq [ex_hit; ex_bounce] [ex_shot].

(** The first document read sets [match]: if it has no ["match"] key the
    run stops with a [KeyError], whatever the later documents hold. *)
Theorem first_document_without_match a n0 ns d0 :
  sort_files (map fst a) = Ok (n0 :: ns) ->
  open_entry a n0 = Ok d0 ->
  d_match d0 = None ->
  process_all a = Err KeyError.
Proof.
  intros Hs Ho Hm. unfold process_all. rewrite Hs. simpl.
  rewrite Ho. simpl. now rewrite Hm.
Qed.

Definition no_match_archive : archive :=
  [(u "data/2.json", Some ex_doc); (u "data/1.json", Some ex_doc_no_match)].

Lemma first_document_without_match_witness :
  process_all no_match_archive = Err KeyError.
Proof.
  apply (first_document_without_match _ (u "1") [u "2"] ex_doc_no_match);
    vm_compute; reflexivity.
Defined.

(** The fields a row takes from the [match] object [m]. *)
Definition from_match (m : match_info) (r : row) : Prop :=
  season r = m_season m /\ tournament_id r = m_tournament_id m /\
  draw_code r = m_draw_code m /\
  exists p, In p (m_players m) /\ hitter_external_id r = external_id p.

Lemma players_lookup_in ps k p : players_lookup ps k = Ok p -> In p ps.
Proof.
  unfold players_lookup. destruct (find _ (rev ps)) eqn:E; [|discriminate].
  intros H. injection H as <-. apply find_some in E. apply in_rev, E.
Qed.

Lemma process_shot_from_match m sq hits bounces s r :
  process_shot m sq hits bounces s = Ok (Some r) -> from_match m r.
Proof.
  intros H. apply process_shot_row in H.
  destruct H as (end_t & hit & bo & hitter & p0 & p1 & _ & _ & _ & _ & Hh & _ & _ & Hr).
  cbv zeta in Hr. subst r. unfold from_match; simpl.
  repeat split. exists hitter. split; [|reflexivity]. eapply players_lookup_in, Hh.
Qed.

Lemma emitted_forall {A} (P : row -> Prop) (f : A -> result (option row)) l outs :
  (forall v r, f v = Ok (Some r) -> P r) ->
  mapM f l = Ok outs -> Forall P (emitted outs).
Proof.
  intros Hf. revert outs. induction l as [|h t IH]; intros outs H; simpl in H.
  - injection H as <-. constructor.
  - inv_bind H. injection H as <-. simpl.
    destruct a as [r|]; simpl; [constructor; eauto | eauto].
Qed.

Lemma main_loop_from_match a m names acc rows :
  main_loop a (Some m) names acc = Ok rows ->
  Forall (from_match m) acc -> Forall (from_match m) rows.
Proof.
  revert acc. induction names as [|n names IH]; intros acc H Hacc; simpl in H.
  - now injection H as <-.
  - inv_bind H. apply (IH _ H).
    apply Forall_app. split; [exact Hacc|].
    unfold doc_rows in E0. inv_bind E0. injection E0 as <-.
    eapply emitted_forall; [|exact E1]. apply process_shot_from_match.
Qed.

(** Every row takes [season], [tournament_id], [draw_code] and the hitter's
    [external_id] from the [match] object of the first document read;
    the ["match"] keys of later documents are never consulted. *)
Theorem rows_use_first_match a rows n0 ns d0 m0 :
  process_all a = Ok rows ->
  sort_files (map fst a) = Ok (n0 :: ns) ->
  open_entry a n0 = Ok d0 ->
  d_match d0 = Some m0 ->
  Forall (from_match m0) rows.
Proof.
  intros H Hs Ho Hm. unfold process_all in H. rewrite Hs in H. simpl in H.
  rewrite Ho in H. simpl in H. rewrite Hm in H. simpl in H. inv_bind H.
  apply (main_loop_from_match _ _ _ _ _ H). simpl.
  unfold doc_rows in E. inv_bind E. injection E as <-.
  eapply emitted_forall; [|exact E0]. apply process_shot_from_match.
Qed.

Definition ex_match2 : match_info :=
  mk_match (JInt 2024) (JStr (u "T2")) (JStr (u "WS"))
           [mk_player (u "A") (JStr (u "qa")); mk_player (u "B") (JStr (u "qb"))].

Definition two_match_archive : archive :=
  [(u "data/2.json", Some (mk_document (Some ex_match2) ex_seq [ex_hit; ex_bounce] [ex_shot]));
   (u "data/1.json", Some ex_doc)].

Lemma rows_use_first_match_witness :
  Forall (from_match ex_match) (ok_or [] (process_all two_match_archive)).
Proof.
  apply (rows_use_first_match two_match_archive _ (u "1") [u "2"] ex_doc ex_match);
    vm_compute; reflexivity.
Defined.

(** ** Rows of a document *)

Lemma find_rev_last {A} (f : A -> bool) l p :
  find f (rev l) = Some p ->
  exists l1 l2, l = l1 ++ p :: l2 /\ f p = true /\ Forall (fun q => f q = false) l2.
Proof.
  induction l as [|x l IH] using rev_ind; simpl; [discriminate|].
  rewrite rev_app_distr. simpl. destruct (f x) eqn:Ex; intros H.
  - injection H as <-. exists l, []. auto.
  - destruct (IH H) as (l1 & l2 & -> & Hp & Hl2). exists l1, (l2 ++ [x]).
    rewrite <- app_assoc. repeat split; auto.
    apply Forall_app. auto.
Qed.

(** [players] is built by a dict comprehension over the roster, so when two
    roster entries share a team the later one wins: the hitter of a row is
    the last roster entry of the shot's team. *)
Theorem hitter_is_last_roster_entry m sq hits bounces s r :
  process_shot m sq hits bounces s = Ok (Some r) ->
  exists l1 p l2, m_players m = l1 ++ p :: l2 /\ pl_team p = team s /\
    Forall (fun q => pl_team q <> team s) l2 /\
    hitter_external_id r = external_id p.
Proof.
  intros H. apply process_shot_row in H.
  destruct H as (end_t & hit & bo & hitter & p0 & p1 & _ & _ & _ & _ & Hh & _ & _ & Hr).
  cbv zeta in Hr. subst r. unfold players_lookup in Hh.
  destruct (find _ (rev (m_players m))) as [q|] eqn:E; [|discriminate].
  injection Hh as Hh. subst hitter. apply find_rev_last in E.
  destruct E as (l1 & l2 & Hl & Hp & Hl2). exists l1, q, l2.
  repeat split; auto.
  - now apply ustr_eqb_spec in Hp.
  - eapply Forall_impl; [|exact Hl2]. simpl. intros q' Hq Heq.
    apply ustr_eqb_spec in Heq. congruence.
Qed.

Definition dup_roster_match : match_info :=
  mk_match (JInt 2023) (JStr (u "T1")) (JStr (u "MS"))
           [mk_player (u "A") (JStr (u "old")); mk_player (u "B") (JStr (u "pb"));
            mk_player (u "A") (JStr (u "new"))].

Lemma hitter_is_last_roster_entry_witness :
  exists l1 p l2, m_players dup_roster_match = l1 ++ p :: l2 /\ pl_team p = team ex_shot /\
    Forall (fun q => pl_team q <> team ex_shot) l2 /\
    hitter_external_id (row_of (process_shot dup_roster_match ex_seq [ex_hit] [ex_bounce] ex_shot))
    = external_id p.
Proof.
  apply (hitter_is_last_roster_entry dup_roster_match ex_seq [ex_hit] [ex_bounce] ex_shot).
  vm_compute. reflexivity.
Defined.

Lemma emitted_count m sq hits bounces l outs :
  mapM (process_shot m sq hits bounces) l = Ok outs ->
  List.length (emitted outs)
  = List.length (filter (fun s => shot_no s <=? Z.of_nat (List.length hits)) l).
Proof.
  revert outs. induction l as [|s l IH]; intros outs H; simpl in H.
  - now injection H as <-.
  - inv_bind H. injection H as <-. simpl.
    destruct (Z.leb_spec (shot_no s) (Z.of_nat (List.length hits))) as [Hle|Hlt].
    + destruct a as [r|]; [|now apply process_shot_not_skipped in E].
      simpl. f_equal. now apply IH.
    + rewrite process_shot_skip in E by lia. injection E as <-. simpl. now apply IH.
Qed.

(** A document that is processed without error yields exactly one row per
    shot whose [shot_no] does not exceed its number of hit samples. *)
Theorem doc_row_count m d rs :
  doc_rows m d = Ok rs ->
  List.length rs
  = List.length (filter (fun s => shot_no s <=? Z.of_nat (List.length (hits_of d)))
                        (d_shots d)).
Proof.
  unfold doc_rows, process_doc. intros H. inv_bind H. injection H as <-.
  exact (emitted_count _ _ _ _ _ _ E).
Qed.

Lemma doc_row_count_witness :
  List.length (ok_or [] (doc_rows ex_match ex_doc_extra_shot))
  = List.length (filter (fun s => shot_no s <=? Z.of_nat (List.length (hits_of ex_doc_extra_shot)))
                        (d_shots ex_doc_extra_shot)).
Proof. apply (doc_row_count ex_match). vm_compute. reflexivity. Defined.

(** ** The bounce search *)

(** The search for the bounce of a shot fails only with an
    [OverflowError].  It fails at the first bounce that is not rejected
    quietly: that bounce is later than the hit, one of [hit.time] and
    [duration] is an [int], the other a [float], and the [int] rounds to
    no finite double. *)
Theorem bounce_search_error hit d bounces e :
  find_res (in_window hit d) bounces = Err e ->
  e = OverflowError /\
  exists pre b post i g sgn,
    bounces = pre ++ b :: post /\
    Forall (fun b' => in_window hit d b' = Ok false) pre /\
    py_lt (time hit) (time b) = true /\
    ((time hit = NInt i /\ d = NFloat g) \/ (time hit = NFloat g /\ d = NInt i)) /\
    of_Z i = S754_infinity sgn.
Proof.
  induction bounces as [|h t IH]; cbn [find_res]; [discriminate|].
  destruct (in_window hit d h) as [[|]|e'] eqn:E; cbn [res_bind].
  - discriminate.
  - intros H. destruct (IH H) as [He (pre & b & post & i & g & sgn & -> & Hpre & Hrest)].
    split; [exact He|]. exists (h :: pre), b, post, i, g, sgn.
    split; [reflexivity|]. split; [constructor; assumption | exact Hrest].
  - intros H. injection H as <-.
    unfold in_window in E. destruct (py_lt (time hit) (time h)) eqn:Hlt; [|discriminate].
    destruct (py_add (time hit) d) as [x|e''] eqn:Ea; cbn [res_bind] in E; [discriminate|].
    injection E as <-. split; [now apply py_add_err in Ea|].
    unfold py_add, int_to_float in Ea.
    destruct (time hit) as [i|f], d as [j|g]; try discriminate.
    + destruct (of_Z i) as [sg|sg| |sg m ex] eqn:Ei; cbn [res_bind] in Ea;
        try discriminate.
      exists [], h, t, i, g, sg. repeat split; auto.
    + destruct (of_Z j) as [sg|sg| |sg m ex] eqn:Ej; cbn [res_bind] in Ea;
        try discriminate.
      exists [], h, t, j, f, sg. repeat split; auto.
Qed.

Definition huge_hit : sample :=
  mk_sample (Some (u "hit")) (NInt (10 ^ 309)) (mk_ball (JInt 1) (JInt 2) (JInt 3)) [].

Definition huge_bounce : sample :=
  mk_sample (Some (u "bounce")) (NInt (10 ^ 309 + 1)) (mk_ball (JInt 4) (JInt 5) (JInt 0)) [].

Lemma bounce_search_error_witness :
  find_res (in_window huge_hit (dbl 1 0)) [ex_bounce; huge_bounce] = Err OverflowError /\
  (OverflowError = OverflowError /\
   exists pre b post i g sgn,
     [ex_bounce; huge_bounce] = pre ++ b :: post /\
     Forall (fun b' => in_window huge_hit (dbl 1 0) b' = Ok false) pre /\
     py_lt (time huge_hit) (time b) = true /\
     ((time huge_hit = NInt i /\ dbl 1 0 = NFloat g) \/
      (time huge_hit = NFloat g /\ dbl 1 0 = NInt i)) /\
     of_Z i = S754_infinity sgn).
Proof.
  split; [vm_compute; reflexivity|].
  apply (bounce_search_error huge_hit (dbl 1 0) [ex_bounce; huge_bounce]).
  vm_compute. reflexivity.
Defined.

(** ** The CSV file *)

Lemma write_rows_ok c rows :
  Forall (fun r => forallb encodable (csv_row r) = true) rows ->
  write_rows c header_fields rows = (Ok tt, c ++ List.concat (map csv_row rows)).
Proof.
  revert c. induction rows as [|r rest IH]; intros c H.
  - simpl. now rewrite app_nil_r.
  - inversion H as [|? ? Hr Hrest]; subst. cbn [write_rows]. unfold write_text.
    fold (csv_row r). rewrite Hr. rewrite IH by exact Hrest.
    cbn [map List.concat]. now rewrite app_assoc.
Qed.

(** When processing succeeds with at least one row and no value holds a
    lone surrogate, [result.csv] holds exactly the header line followed by
    one line per row, in the order of [rows]. *)
Theorem successful_write a file rows :
  process_all a = Ok rows -> rows <> [] ->
  Forall (fun r => forallb encodable (csv_row r) = true) rows ->
  run a file = (Ok tt, Some (csv_line header_fields ++ List.concat (map csv_row rows))).
Proof.
  intros H Hne Henc. unfold run. rewrite H. destruct rows as [|r0 rest]; [congruence|].
  unfold write_csv. rewrite row_items_keys. unfold write_text.
  replace (forallb encodable (csv_line header_fields)) with true by (vm_compute; reflexivity).
  rewrite app_nil_l. rewrite write_rows_ok by exact Henc. reflexivity.
Qed.

Lemma successful_write_witness :
  run ex_archive None
  = (Ok tt, Some (csv_line header_fields
                  ++ List.concat (map csv_row (ok_or [] (process_all ex_archive))))).
Proof.
  apply successful_write.
  - vm_compute. reflexivity.
  - vm_compute. discriminate.
  - apply Forall_forall. intros r Hr. vm_compute in Hr.
    destruct Hr as [<-|[]]. vm_compute. reflexivity.
Defined.

(** ** The end timestamp read back *)

Lemma pad_digits_length n v : List.length (pad_digits n v) = n.
Proof.
  revert v. induction n as [|n IH]; intros v; simpl; [reflexivity|].
  rewrite length_app, IH. simpl. lia.
Qed.

Lemma pad_digit_char v : decimal (48 + v mod 10) = Some (v mod 10).
Proof.
  pose proof (Z.mod_pos_bound v 10 ltac:(lia)).
  unfold decimal, nd_zeros. cbn [find].
  replace ((48 <=? 48 + v mod 10) && (48 + v mod 10 <=? 48 + 9)) with true
    by (symmetry; apply andb_true_iff; split; apply Z.leb_le; lia).
  f_equal. lia.
Qed.

Lemma pad_digit_ascii v : rng 48 57 (48 + v mod 10) = true.
Proof.
  pose proof (Z.mod_pos_bound v 10 ltac:(lia)).
  unfold rng. apply andb_true_iff; split; apply Z.leb_le; lia.
Qed.

Lemma decimal_from_snoc acc l c d :
  decimal c = Some d ->
  decimal_from acc (l ++ [c]) = match decimal_from acc l with
                                | Some a => Some (a * 10 + d) | None => None end.
Proof.
  revert acc. induction l as [|h t IH]; intros acc Hc; simpl.
  - now rewrite Hc.
  - destruct (decimal h); [now apply IH | reflexivity].
Qed.

Lemma decimal_from_pad n v :
  0 <= v -> decimal_from 0 (pad_digits n v) = Some (v mod 10 ^ Z.of_nat n).
Proof.
  revert v. induction n as [|n IH]; intros v Hv; cbn [pad_digits].
  - simpl. now rewrite Z.mod_1_r.
  - rewrite (decimal_from_snoc _ _ _ _ (pad_digit_char v)), IH by (apply Z.div_pos; lia).
    f_equal. replace (Z.of_nat (S n)) with (Z.succ (Z.of_nat n)) by lia.
    rewrite Z.pow_succ_r by lia.
    rewrite Z.rem_mul_r by (try apply Z.pow_pos_nonneg; lia).
    ring.
Qed.

Lemma pad_digits_decimal n v : Forall (fun c => is_decimal c = true) (pad_digits n v).
Proof.
  revert v. induction n as [|n IH]; intros v; cbn [pad_digits]; [constructor|].
  apply Forall_app. split; [apply IH|].
  constructor; [|constructor]. unfold is_decimal. now rewrite pad_digit_char.
Qed.

Lemma pad_digits_ascii n v : forallb (rng 48 57) (pad_digits n v) = true.
Proof.
  revert v. induction n as [|n IH]; intros v; cbn [pad_digits]; [reflexivity|].
  rewrite forallb_app, IH. cbn [forallb]. now rewrite pad_digit_ascii.
Qed.

Lemma digit_run_digits l c rest :
  Forall (fun d => is_decimal d = true) l -> is_decimal c = false ->
  digit_run (l ++ c :: rest) = (l, c :: rest).
Proof.
  intros Hl Hc. induction Hl as [|d l Hd Hl IH]; simpl.
  - now rewrite Hc.
  - rewrite Hd. now rewrite IH.
Qed.

Lemma digit_run_pad n v c rest :
  is_decimal c = false -> digit_run (pad_digits n v ++ c :: rest) = (pad_digits n v, c :: rest).
Proof. apply digit_run_digits, pad_digits_decimal. Qed.

Lemma run_value_pad n v : 0 <= v < 10 ^ Z.of_nat n -> run_value (pad_digits n v) = v.
Proof.
  intros Hv. unfold run_value. rewrite decimal_from_pad by lia.
  now apply Z.mod_small.
Qed.

Lemma field_pad ok n v c rest :
  0 <= v < 10 ^ Z.of_nat n -> ok (pad_digits n v) = true -> is_decimal c = false ->
  field ok (pad_digits n v ++ c :: rest) = Some (v, c :: rest).
Proof.
  intros Hv Hok Hc. unfold field. rewrite digit_run_pad by exact Hc.
  rewrite Hok. now rewrite run_value_pad.
Qed.

(** A directive accepts the two-digit rendering of every value in
    [lo .. hi] when it accepts each of them. *)
Definition zrange (lo hi : Z) : list Z :=
  map (fun i => lo + Z.of_nat i) (seq 0 (Z.to_nat (hi - lo + 1))).

Lemma pad2_ok (ok : ustr -> bool) lo hi v :
  forallb (fun w => ok (pad_digits 2 w)) (zrange lo hi) = true ->
  lo <= v <= hi -> ok (pad_digits 2 v) = true.
Proof.
  intros Hall Hv. rewrite forallb_forall in Hall. apply Hall.
  apply in_map_iff. exists (Z.to_nat (v - lo)). split; [lia|].
  apply in_seq. lia.
Qed.

Lemma day_field_digit c t :
  rng 48 57 c = true -> day_field (c :: t) = field d_ok (c :: t).
Proof.
  intros Hc. unfold rng in Hc.
  apply andb_true_iff in Hc. destruct Hc as [E1 E2]. apply Z.leb_le in E1, E2.
  assert (c = 48 \/ c = 49 \/ c = 50 \/ c = 51 \/ c = 52 \/ c = 53 \/ c = 54 \/
          c = 55 \/ c = 56 \/ c = 57) as Hc' by lia.
  repeat destruct Hc' as [->|Hc']; try subst c; reflexivity.
Qed.

Lemma day_field_pad v c rest :
  1 <= v <= 31 -> is_decimal c = false ->
  day_field (pad_digits 2 v ++ c :: rest) = Some (v, c :: rest).
Proof.
  intros Hv Hc. change (pad_digits 2 v) with ([48 + (v / 10) mod 10; 48 + v mod 10]).
  cbn [app]. rewrite day_field_digit by apply pad_digit_ascii.
  change (48 + (v / 10) mod 10 :: 48 + v mod 10 :: c :: rest)
    with (pad_digits 2 v ++ c :: rest).
  apply field_pad; [simpl; lia | | exact Hc].
  apply (pad2_ok d_ok 1 31); [vm_compute; reflexivity | lia].
Qed.

Lemma days_in_month_le y m : days_in_month y m <= 31.
Proof.
  unfold days_in_month. destruct (m =? 2); [destruct (is_leap y)|destruct (_ || _)]; lia.
Qed.

Ltac parse_step :=
  cbn [opt_bind expect lit_eqb Z.eqb Pos.eqb orb andb negb Nat.eqb fst snd
       Z.leb Z.compare Pos.compare Pos.compare_cont].

(** [shot_end_timestamp] is [isoformat()] plus ["Z"]; [isoformat] leaves
    out [.ffffff] when the microseconds are zero. Parsed back with the
    script's own format, the end timestamp gives the same datetime when
    its microseconds are not zero, and is rejected with a [ValueError]
    when they are. *)
Theorem end_timestamp_reparse t :
  datetime_valid t = true ->
  strptime (isoformat t ++ u "Z") = if microsecond t =? 0 then Err ValueError else Ok t.
Proof.
  intros H. destruct t as [Y M D h mi se us]. pose proof H as Hv.
  unfold datetime_valid in H. cbn in H.
  repeat rewrite andb_true_iff in H. repeat rewrite Z.leb_le in H.
  pose proof (days_in_month_le Y M).
  unfold isoformat; cbn [year month day hour minute second microsecond].
  rewrite <- !app_assoc.
  change (u "-") with [45]; change (u "T") with [84]; change (u ":") with [58];
  change (u "Z") with [90]; change (u ".") with [46].
  cbn [app]. unfold strptime, strptime_fields.
  rewrite (field_pad Y_ok 4 Y)
    by (simpl; lia || reflexivity || (unfold Y_ok; now rewrite pad_digits_length)).
  parse_step.
  rewrite (field_pad m_ok 2 M)
    by (simpl; lia || reflexivity || (apply (pad2_ok m_ok 1 12); [vm_compute; reflexivity | lia])).
  parse_step.
  rewrite day_field_pad by (reflexivity || lia). parse_step.
  rewrite (field_pad H_ok 2 h)
    by (simpl; lia || reflexivity || (apply (pad2_ok H_ok 0 23); [vm_compute; reflexivity | lia])).
  parse_step.
  rewrite (field_pad M_ok 2 mi)
    by (simpl; lia || reflexivity || (apply (pad2_ok M_ok 0 59); [vm_compute; reflexivity | lia])).
  parse_step.
  destruct (Z.eqb_spec us 0) as [Hus|Hus]; cbn [app].
  - rewrite (field_pad S_ok 2 se)
      by (simpl; lia || reflexivity || (apply (pad2_ok S_ok 0 59); [vm_compute; reflexivity | lia])).
    parse_step. reflexivity.
  - rewrite (field_pad S_ok 2 se)
      by (simpl; lia || reflexivity || (apply (pad2_ok S_ok 0 59); [vm_compute; reflexivity | lia])).
    parse_step.
    rewrite digit_run_pad by reflexivity.
    unfold f_ok, frac_value. rewrite pad_digits_length, pad_digits_ascii. parse_step.
    rewrite !run_value_pad by (simpl; lia).
    replace (us * 10 ^ (6 - Z.of_nat 6)) with us by (simpl; lia).
    replace (negb ((1 <=? Z.of_nat 6) && (Z.of_nat 6 <=? 6) && true)) with false by reflexivity.
    cbn beta iota. now rewrite Hv.
Qed.

Lemma end_timestamp_reparse_witness :
  strptime (isoformat (mk_datetime 2023 1 1 0 0 1 500000) ++ u "Z")
  = if microsecond (mk_datetime 2023 1 1 0 0 1 500000) =? 0 then Err ValueError
    else Ok (mk_datetime 2023 1 1 0 0 1 500000).
Proof. apply end_timestamp_reparse. vm_compute. reflexivity. Defined.
